(** * Copper: coverage tracking and verification of recorded HTTP exchanges

    A shallow embedding of the Go package [copper]:
    - [error.go]: sentinel classifications, [joinError], [VerificationError],
      together with the parts of Go's [errors] package they rely on
      ([errors.Is], [errors.As], [errors.Join]);
    - [verifier.go] in its options-based revision ([NewVerifier], [loadPath],
      [Record], [CurrentErrors]);
    - [endpoints.go]: the path -> method -> status-code coverage tree
      ([loadPath], [IsChecked], [MarkChecked], [Unchecked]).

    The OpenAPI loader, the regular expression engine and the request and
    response validators of kin-openapi are external collaborators; they are
    Section variables wherever the code calls them. *)

From Stdlib Require Import ZArith String Ascii Bool.
From stdpp Require Import base list gmap strings.

Open Scope string_scope.
Set Warnings "-register-all".

(* ------------------------------------------------------------------ *)
(** ** Go values used as errors *)

Module GoErr.

(** [type SentinelError struct { msg string }]: a comparable value type. *)
Record SentinelError := { sentinel_msg : string }.

Definition ErrNotChecked      := {| sentinel_msg := "not checked" |}.
Definition ErrNotPartOfSpec   := {| sentinel_msg := "not part of spec" |}.
Definition ErrResponseInvalid := {| sentinel_msg := "response invalid" |}.
Definition ErrRequestInvalid  := {| sentinel_msg := "request invalid" |}.

(** [openapi3filter.ParseErrorKind]. *)
Inductive ParseErrorKind :=
| KindOther
| KindUnsupportedFormat
| KindInvalidFormat.

(** The dynamic values an [error] interface holds in this program.  Pointer
    types carry the address of their allocation: interface equality on them
    is pointer identity. *)
Inductive GoError :=
| ESentinel (s : SentinelError)
    (* SentinelError, by value *)
| EString (addr : nat) (msg : string)
    (* *errors.errorString (errors.New, fmt.Errorf without %w) *)
| EWrap (addr : nat) (msg : string) (inner : GoError)
    (* *fmt.wrapError (fmt.Errorf with one %w): Unwrap() error *)
| EVerification (addr : nat) (err : GoError) (sentinel : SentinelError)
    (* *VerificationError: Unwrap() []error { err, sentinel } *)
| EJoin (addr : nat) (errs : list GoError)
    (* *errors.joinError (errors.Join): Unwrap() []error *)
| EMulti (errs : list GoError)
    (* openapi3.MultiError, a slice type: not comparable, has an Is method *)
| EParse (addr : nat) (kind : ParseErrorKind) (reason : string) (cause : option GoError)
    (* *openapi3filter.ParseError: Unwrap() error { return e.Cause }; its path and
       value fields are left out *)
| EResponse (addr : nat) (reason : string) (err : option GoError)
    (* *openapi3filter.ResponseError: Unwrap() error { return err.Err } *)
| EPlain (cmp : bool) (id : nat) (msg : string).
    (* a value of any other error type, with neither an Is nor an Unwrap
       method, as a caller may hand to joinError; [cmp] tells whether its type
       is comparable (an error type built on a slice or a map is not), and
       [id] identifies the value for ==. *)

(** [strings.Join]. *)
Fixpoint join (sep : string) (l : list string) : string :=
  match l with
  | [] => ""
  | [x] => x
  | x :: r => x ++ sep ++ join sep r
  end.

(** [Error() string] of each dynamic type. *)
Fixpoint Error (e : GoError) : string :=
  match e with
  | ESentinel s => sentinel_msg s
  | EString _ m => m
  | EWrap _ m _ => m
  | EVerification _ err s => sentinel_msg s ++ ": " ++ Error err
  | EJoin _ l => join (String "010"%char EmptyString) (map Error l)
  | EMulti l => join " | " (map Error l)
  | EParse _ _ r None => r
  | EParse _ _ r (Some c) => if String.eqb r "" then Error c else r ++ ": " ++ Error c
  | EResponse _ r None => r
  | EResponse _ r (Some c) =>
      if String.eqb r "" || String.eqb r (Error c) then Error c else r ++ ": " ++ Error c
  | EPlain _ _ m => m
  end.

(** [reflectlite.TypeOf(target).Comparable()]. *)
Definition comparable (e : GoError) : bool :=
  match e with
  | EMulti _ => false
  | EPlain c _ _ => c
  | _ => true
  end.

(** Interface equality [err == target] for a comparable [target]: same dynamic
    type and equal values (pointer identity for pointer types). *)
Definition iface_eqb (e t : GoError) : bool :=
  match e, t with
  | ESentinel s, ESentinel s' => String.eqb (sentinel_msg s) (sentinel_msg s')
  | EString a _, EString b _ => Nat.eqb a b
  | EWrap a _ _, EWrap b _ _ => Nat.eqb a b
  | EVerification a _ _, EVerification b _ _ => Nat.eqb a b
  | EJoin a _, EJoin b _ => Nat.eqb a b
  | EParse a _ _ _, EParse b _ _ _ => Nat.eqb a b
  | EResponse a _ _, EResponse b _ _ => Nat.eqb a b
  | EPlain c a _, EPlain c' b _ => c && c' && Nat.eqb a b
  | _, _ => false
  end.

(** The loop of [errors.is]: equality test, then the [Is] method, then
    [Unwrap() error] or [Unwrap() []error]. *)
Fixpoint is_ (tc : bool) (target : GoError) (err : GoError) {struct err} : bool :=
  (tc && iface_eqb err target) ||
  match err with
  | ESentinel _ | EString _ _ | EPlain _ _ _ => false
  | EWrap _ _ inner => is_ tc target inner
  | EVerification _ inner s =>
      is_ tc target inner || (tc && iface_eqb (ESentinel s) target)
  | EJoin _ l =>
      (fix go (l : list GoError) : bool :=
         match l with [] => false | e :: r => is_ tc target e || go r end) l
  | EMulti l =>
      (* MultiError.Is: true for any MultiError target, else errors.Is(e, target)
         for each element *)
      match target with EMulti _ => true | _ => false end ||
      (fix go (l : list GoError) : bool :=
         match l with [] => false | e :: r => is_ tc target e || go r end) l
  | EParse _ _ _ c | EResponse _ _ c =>
      match c with None => false | Some e => is_ tc target e end
  end.

(** [errors.Is(err, target)]. *)
Definition errors_Is (err target : GoError) : bool :=
  is_ (comparable target) target err.

(** [errors.As(err, &parseErr)] with [parseErr *openapi3filter.ParseError]:
    the first [*ParseError] met in the same traversal order. *)
Fixpoint as_parse (err : GoError) : option (nat * ParseErrorKind) :=
  match err with
  | EParse a k _ _ => Some (a, k)
  | ESentinel _ | EString _ _ | EPlain _ _ _ => None
  | EWrap _ _ inner => as_parse inner
  | EVerification _ inner _ => as_parse inner
  | EJoin _ l | EMulti l =>
      (fix go (l : list GoError) :=
         match l with
         | [] => None
         | e :: r => match as_parse e with Some p => Some p | None => go r end
         end) l
  | EResponse _ _ c => match c with None => None | Some e => as_parse e end
  end.

(** [joinError(sentinel, err)]: allocates a [*VerificationError] at [addr]. *)
Definition joinError (addr : nat) (sentinel : SentinelError) (err : GoError) : GoError :=
  EVerification addr err sentinel.

(** The [Sentinel()] method of [*VerificationError]. *)
Definition Sentinel (e : GoError) : option SentinelError :=
  match e with EVerification _ _ s => Some s | _ => None end.

(** A cause wrapped by [joinError] layers: the head of the list is the
    outermost layer, each with the address of its [*VerificationError]. *)
Fixpoint nest (layers : list (nat * SentinelError)) (cause : GoError) : GoError :=
  match layers with
  | [] => cause
  | (a, s) :: r => joinError a s (nest r cause)
  end.

(** [strings.Contains(s, sub)], as [assert.ErrorContains] uses it. *)
Definition Contains (s sub : string) : Prop :=
  exists pre post, s = pre ++ sub ++ post.

End GoErr.

(* ------------------------------------------------------------------ *)
(** ** Strings helpers used by the code *)

Module GoStr.

(** [strings.ToUpper] on ASCII text.  Go maps every Unicode letter; on ASCII
    text that is the mapping below, other bytes are left as they are. *)
Definition upper_ascii (c : ascii) : ascii :=
  let n := nat_of_ascii c in
  if ((97 <=? n) && (n <=? 122))%nat then ascii_of_nat (n - 32)%nat else c.

Fixpoint ToUpper (s : string) : string :=
  match s with
  | EmptyString => EmptyString
  | String c r => String (upper_ascii c) (ToUpper r)
  end.

(** Decimal digits of a non-negative integer, most significant first. *)
Fixpoint digits (fuel : nat) (n : Z) (acc : string) : string :=
  match fuel with
  | O => acc
  | S f =>
      let acc' := String (ascii_of_nat (48 + Z.to_nat (n mod 10)%Z)%nat) acc in
      if (n <? 10)%Z then acc' else digits f (n / 10)%Z acc'
  end.

(** [strconv.Itoa]. *)
Definition Itoa (n : Z) : string :=
  if (n <? 0)%Z then "-" ++ digits 64%nat (- n)%Z "" else digits 64%nat n "".

(** [strings.Trim(s, "/")]. *)
Fixpoint trim_left_slash (s : string) : string :=
  match s with
  | String "/" r => trim_left_slash r
  | _ => s
  end.

Definition rev_string (s : string) : string :=
  string_of_list_ascii (rev (list_ascii_of_string s)).

Definition Trim_slash (s : string) : string :=
  rev_string (trim_left_slash (rev_string (trim_left_slash s))).

(** Whether a character is a decimal digit. *)
Definition is_digit (c : ascii) : bool :=
  ((48 <=? nat_of_ascii c) && (nat_of_ascii c <=? 57))%nat.

(** Whether every character of a string is a decimal digit or a minus sign:
    the characters [strconv.Itoa] can produce. *)
Definition numeric_code (s : string) : bool :=
  forallb (fun c => is_digit c || Ascii.eqb c "-") (list_ascii_of_string s).


(** Whether a string starts with a slash. *)
Definition starts_slash (s : string) : bool :=
  match s with
  | String "/" _ => true
  | _ => false
  end.

End GoStr.

(* ------------------------------------------------------------------ *)
(** ** [uri_creator.go] *)

Module UriCreatorM.

Import GoStr.

(** [type UriCreator struct { Host string; BasePath string }]. *)
Record UriCreator := { Host : string; BasePath : string }.

(** [Relative]: [fmt.Sprintf("/%v/%v", d.BasePath, strings.TrimLeft(path, "/"))]. *)
Definition Relative (d : UriCreator) (path : string) : string :=
  "/" ++ BasePath d ++ "/" ++ trim_left_slash path.

(** [Absolute]: [fmt.Sprintf("%v%v", d.Host, d.Relative(path))]. *)
Definition Absolute (d : UriCreator) (path : string) : string :=
  Host d ++ Relative d path.

End UriCreatorM.

(* ------------------------------------------------------------------ *)
(** ** The coverage tree of [endpoints.go] *)

Module Endpoints.

Import GoStr.

(** [type responses struct { responses map[string]bool }]. *)
Record responses := { responses_map : gmap string bool }.

(** [type methods struct { methods map[string]responses }]. *)
Record methods := { methods_map : gmap string responses }.

(** [type endpoints struct { paths map[string]methods; checkInternalServerErrors bool }]. *)
Record endpoints := {
  paths : gmap string methods;
  checkInternalServerErrors : bool
}.

(** [responseMap]: [None] is the nil map returned when the path or the
    upper-cased method is absent. *)
Definition responseMap (e : endpoints) (path method : string) : option (gmap string bool) :=
  match paths e !! path with
  | None => None
  | Some p =>
      match methods_map p !! ToUpper method with
      | None => None
      | Some m => Some (responses_map m)
      end
  end.

(** [IsChecked]: indexing a nil map, or a missing key, yields [false]. *)
Definition IsChecked (e : endpoints) (path method resCode : string) : bool :=
  match responseMap e path method with
  | None => false
  | Some r => default false (r !! resCode)
  end.

(** [MarkChecked]: [r[resCode] = true] writes through the map reference
    returned by [responseMap], so the write lands in [e.paths]. *)
Definition MarkChecked (e : endpoints) (path method resCode : string) : endpoints * bool :=
  match paths e !! path with
  | None => (e, false)
  | Some p =>
      let um := ToUpper method in
      match methods_map p !! um with
      | None => (e, false)
      | Some m =>
          let r' := {| responses_map := <[resCode := true]> (responses_map m) |} in
          let p' := {| methods_map := <[um := r']> (methods_map p) |} in
          ({| paths := <[path := p']> (paths e);
              checkInternalServerErrors := checkInternalServerErrors e |}, true)
      end
  end.

(** The coordinates present in the tree. *)
Definition coordinates (e : endpoints) : list (string * string * string) :=
  map_fold (fun path p acc =>
    map_fold (fun method r acc' =>
      map_fold (fun code _ acc'' => (path, method, code) :: acc'') acc' (responses_map r))
      acc (methods_map p)) [] (paths e).

Definition has_coordinate (e : endpoints) (path method resCode : string) : bool :=
  match responseMap e path method with
  | None => false
  | Some r => bool_decide (is_Some (r !! resCode))
  end.

(** The parts of libopenapi's high-level v3 model that [endpoints.loadPath]
    reads: [GetOperations()] as the (lower-case method, operation) pairs in
    the order [FromNewest] yields them, and [op.Responses.Codes] as its keys
    in [KeysFromNewest] order, [None] when [op.Responses] is nil. *)
Record Operation3 := { Responses3 : option (list string) }.
Record PathItem3 := { Operations : list (string * Operation3) }.
Record Document := { PathItems : list (string * PathItem3) }.

(** [e.paths[path] = methods{methods: make(...)}] when [path] is absent. *)
Definition ensure_path (e : endpoints) (path : string) : endpoints :=
  match paths e !! path with
  | Some _ => e
  | None => {| paths := <[path := {| methods_map := empty |}]> (paths e);
               checkInternalServerErrors := checkInternalServerErrors e |}
  end.

(** A write into the [methods] map of [e.paths[path]]: the struct is a copy,
    but its map is shared, so the write lands in the tree. *)
Definition update_methods (e : endpoints) (path : string)
  (f : gmap string responses -> gmap string responses) : endpoints :=
  match paths e !! path with
  | Some pm => {| paths := <[path := {| methods_map := f (methods_map pm) |}]> (paths e);
                  checkInternalServerErrors := checkInternalServerErrors e |}
  | None => e
  end.

(** [e.paths[path].methods[method] = responses{responses: make(...)}] when absent. *)
Definition ensure_method (e : endpoints) (path method : string) : endpoints :=
  update_methods e path (fun mm =>
    match mm !! method with
    | Some _ => mm
    | None => <[method := {| responses_map := empty |}]> mm
    end).

(** [e.paths[path].methods[method].responses[responseCode] = b]. *)
Definition set_code (e : endpoints) (path method code : string) (b : bool) : endpoints :=
  update_methods e path (fun mm =>
    match mm !! method with
    | Some r => <[method := {| responses_map := <[code := b]> (responses_map r) |}]> mm
    | None => mm
    end).

(** [endpoints.loadPath]. *)
Definition loadPath (e : endpoints) (path : string) (i : PathItem3) : endpoints :=
  fold_left (fun e0 '(m, op) =>
    let method := ToUpper m in
    let e1 := ensure_method e0 path method in
    match Responses3 op with
    | None => e1
    | Some codes =>
        fold_left (fun e2 responseCode =>
          if negb (checkInternalServerErrors e2) && String.eqb responseCode "500" then e2
          else set_code e2 path method responseCode false) codes e1
    end) (Operations i) (ensure_path e path).

(** [endpoints.loadPaths], over [model.Paths.PathItems.FromOldest()]. *)
Definition loadPaths (e : endpoints) (model : Document) : endpoints :=
  fold_left (fun e0 '(path, i) => loadPath e0 path i) (PathItems model) e.

(** [newEndpoints]. *)
Definition newEndpoints (model : Document) (checkInternalServerErrors : bool) : endpoints :=
  loadPaths {| paths := empty; checkInternalServerErrors := checkInternalServerErrors |} model.

(** [type Endpoint struct]. *)
Record Endpoint := { Path : string; Method : string; ResponseCode : string }.

(** [endpoints.Unchecked]: Go ranges over the maps in an unspecified
    order, taken here as the order of [map_to_list]. *)
Definition Unchecked (e : endpoints) : list Endpoint :=
  flat_map (fun '((path, m) : string * methods) =>
    flat_map (fun '((method, r) : string * responses) =>
      flat_map (fun '((resCode, checked) : string * bool) =>
        if checked then []
        else [ {| Path := path; Method := method; ResponseCode := resCode |} ])
        (map_to_list (responses_map r)))
      (map_to_list (methods_map m)))
    (map_to_list (paths e)).

(** The path and stored method are present. *)
Definition has_method (e : endpoints) (path method : string) : Prop :=
  exists pm r, paths e !! path = Some pm /\ methods_map pm !! method = Some r.

(** The coordinates [loadPath] documents for a model: status 500 only when
    internal server errors are included. *)
Definition documented3 (model : Document) (chk : bool) (path method code : string) : Prop :=
  exists i m op codes, In (path, i) (PathItems model) /\ In (m, op) (Operations i) /\
    Responses3 op = Some codes /\ In code codes /\ method = ToUpper m /\
    (chk || negb (String.eqb code "500")) = true.

(** The value the tree holds at ([path], [method], [code]), [method] as stored. *)
Definition val (e : endpoints) (path method code : string) : option bool :=
  match paths e !! path with
  | None => None
  | Some pm =>
      match methods_map pm !! method with
      | None => None
      | Some r => responses_map r !! code
      end
  end.

(** [documented3] of one path item, as a boolean. *)
Definition doc_item (chk : bool) (i : PathItem3) (method code : string) : bool :=
  existsb (fun '((m, op) : string * Operation3) =>
    String.eqb method (ToUpper m) &&
    match Responses3 op with
    | Some codes => existsb (String.eqb code) codes && (chk || negb (String.eqb code "500"))
    | None => false
    end) (Operations i).

(** A table with one coordinate, [("/ping", "PUT", "204")], unchecked. *)
Definition sample_table : endpoints :=
  {| paths := <["/ping" := {| methods_map :=
                  <["PUT" := {| responses_map := <["204" := false]> empty |}]> empty |}]> empty;
     checkInternalServerErrors := false |}.

End Endpoints.

(* ------------------------------------------------------------------ *)
(** ** The Verifier of [verifier.go] *)

Module Copper.

Import GoErr GoStr.

(** kin-openapi's document model, as far as [loadPath] reads it.
    [Responses] lists the keys of [op.Responses.Map()]. *)
Record Operation := { op_id : nat; Responses : list string }.

(** [openapi3.PathItem]: one optional operation per method field. *)
Record PathItem := {
  Connect : option Operation; Delete : option Operation; Get : option Operation;
  Head : option Operation; Options : option Operation; Patch : option Operation;
  Post : option Operation; Put : option Operation; Trace : option Operation
}.

(** [openapi3.T]: [Paths.Map()] as an association list (Go map order is
    unspecified, so no statement below depends on the order). *)
Record T := { Paths : list (string * PathItem) }.

(** [GetOperation] of [*PathItem]. *)
Definition GetOperation (i : PathItem) (method : string) : option Operation :=
  if String.eqb method "CONNECT" then Connect i
  else if String.eqb method "DELETE" then Delete i
  else if String.eqb method "GET" then Get i
  else if String.eqb method "HEAD" then Head i
  else if String.eqb method "OPTIONS" then Options i
  else if String.eqb method "PATCH" then Patch i
  else if String.eqb method "POST" then Post i
  else if String.eqb method "PUT" then Put i
  else if String.eqb method "TRACE" then Trace i
  else None.

Definition supportedMethods : list string :=
  ["GET"; "HEAD"; "PUT"; "POST"; "DELETE"; "PATCH"; "OPTIONS"].

Definition StatusInternalServerError : Z := 500%Z.

(** [type config struct]. The request logger only writes to its sink and
    does not influence any state, so it is left out. *)
Record config := {
  basePath : string;
  checkInternalServerErrors : bool;
  checkRequest : bool;
  disableFullCoverage : bool;
  ignoreUnsupportedBodyFormats : bool
}.

Definition Option := config -> config.

Definition empty_config : config :=
  {| basePath := ""; checkInternalServerErrors := false; checkRequest := false;
     disableFullCoverage := false; ignoreUnsupportedBodyFormats := false |}.

(** [getConfig]. *)
Definition getConfig (opts : list Option) : config :=
  fold_left (fun c opt => opt c) opts empty_config.

Definition WithBasePath (p : string) : Option := fun c =>
  {| basePath := "/" ++ Trim_slash p;
     checkInternalServerErrors := checkInternalServerErrors c; checkRequest := checkRequest c;
     disableFullCoverage := disableFullCoverage c;
     ignoreUnsupportedBodyFormats := ignoreUnsupportedBodyFormats c |}.

Definition WithInternalServerErrors : Option := fun c =>
  {| basePath := basePath c; checkInternalServerErrors := true; checkRequest := checkRequest c;
     disableFullCoverage := disableFullCoverage c;
     ignoreUnsupportedBodyFormats := ignoreUnsupportedBodyFormats c |}.

Definition WithRequestValidation : Option := fun c =>
  {| basePath := basePath c; checkInternalServerErrors := checkInternalServerErrors c;
     checkRequest := true; disableFullCoverage := disableFullCoverage c;
     ignoreUnsupportedBodyFormats := ignoreUnsupportedBodyFormats c |}.

Definition WithoutFullCoverage : Option := fun c =>
  {| basePath := basePath c; checkInternalServerErrors := checkInternalServerErrors c;
     checkRequest := checkRequest c; disableFullCoverage := true;
     ignoreUnsupportedBodyFormats := ignoreUnsupportedBodyFormats c |}.

Definition WithIgnoredUnsupportedBodyFormats : Option := fun c =>
  {| basePath := basePath c; checkInternalServerErrors := checkInternalServerErrors c;
     checkRequest := checkRequest c; disableFullCoverage := disableFullCoverage c;
     ignoreUnsupportedBodyFormats := true |}.

(** [routers.Route]. *)
Record Route := {
  route_spec : T; route_item : PathItem; route_method : string; route_op : Operation
}.

(** The parts of [*http.Request] that [Record] reads. *)
Record Request := {
  Method : string;
  EscapedPath : string;       (* req.URL.EscapedPath() *)
  URLPath : string;           (* req.URL.Path *)
  ReqBody : list Byte.byte
}.

(** [*http.Response]; [Body] is what is still readable from [res.Body]. *)
Record Response := {
  StatusCode : Z;
  Header : list (string * list string);
  Body : list Byte.byte;
  Req : Request
}.

Definition set_Body (res : Response) (b : list Byte.byte) : Response :=
  {| StatusCode := StatusCode res; Header := Header res; Body := b; Req := Req res |}.

(** [re.ReplaceAllString(path, "(?P<$1>[^/]+)")] where [re] matches an opening brace, any
    non-closing-brace text and a closing brace: each placeholder becomes a named group. *)
Fixpoint split_close (s : string) : option (string * string) :=
  match s with
  | EmptyString => None
  | String c r =>
      if Ascii.eqb c "}" then Some ("", r)
      else match split_close r with
           | Some (n, rest) => Some (String c n, rest)
           | None => None
           end
  end.

Fixpoint replace_params (fuel : nat) (s : string) : string :=
  match fuel with
  | O => s
  | S f =>
      match s with
      | EmptyString => EmptyString
      | String c r =>
          if Ascii.eqb c "{" then
            match split_close r with
            | Some (name, rest) => "(?P<" ++ name ++ ">[^/]+)" ++ replace_params f rest
            | None => s  (* no closing brace follows: no further match *)
            end
          else String c (replace_params f r)
      end
  end.

Definition ReplaceParams (s : string) : string := replace_params (String.length s) s.

(** A compiled [*regexp.Regexp], identified by the pattern it was compiled from. *)
Definition Regexp : Type := string.

(** [type endpoint struct]. *)
Record endpoint := {
  uriRe : Regexp;
  path : string;
  checked : bool;
  method : string;
  response : string;
  route : Route
}.

Definition set_checked (e : endpoint) : endpoint :=
  {| uriRe := uriRe e; path := path e; checked := true; method := method e;
     response := response e; route := route e |}.

(** [type Verifier struct]. [alloc] is the next free heap address, used for the
    error values the Verifier allocates; the request counter of the logger is
    left out with the logger. *)
Record Verifier := {
  endpoints : list endpoint;
  spec : T;
  errors : list GoError;
  conf : config;
  alloc : nat
}.

Definition mkVerifier (eps : list endpoint) (s : T) (errs : list GoError) (c : config) (a : nat)
  : Verifier :=
  {| endpoints := eps; spec := s; errors := errs; conf := c; alloc := a |}.

(** *** Sample inputs

    A model with one path, ["/ping"], documenting GET with 200 and 500, PUT
    with 204, and TRACE with 200; and concrete collaborators: patterns of
    literal paths, a request validator that accepts or rejects everything, and
    response validators reading the whole body that accept it, or reject it
    as a body of unsupported format. *)
Definition sample_get : Operation := {| op_id := 1; Responses := ["200"; "500"] |}.
Definition sample_put : Operation := {| op_id := 2; Responses := ["204"] |}.
Definition sample_trace : Operation := {| op_id := 3; Responses := ["200"] |}.

Definition sample_item : PathItem :=
  {| Connect := None; Delete := None; Get := Some sample_get; Head := None;
     Options := None; Patch := None; Post := None; Put := Some sample_put;
     Trace := Some sample_trace |}.

Definition sample_spec : T := {| Paths := [("/ping", sample_item)] |}.

Definition sample_Compile (pattern : string) : option Regexp := Some pattern.

Definition sample_MatchString (re : Regexp) (p : string) : bool :=
  String.eqb re ("^" ++ p ++ "$").

Definition sample_Submatches (re : Regexp) (p : string) : list (string * string) := [].

Definition sample_accept_request (r : Route) (req : Request) (params : list (string * string))
  : option GoError := None.

Definition sample_reject_request (r : Route) (req : Request) (params : list (string * string))
  : option GoError := Some (EString 1000 "header X-Id is required").

Definition sample_accept_response (r : Route) (req : Request) (params : list (string * string))
  (code : Z) (h : list (string * list string)) (body : list Byte.byte)
  : option GoError * nat := (None, length body).

Definition sample_unsupported_response (r : Route) (req : Request)
  (params : list (string * string)) (code : Z) (h : list (string * list string))
  (body : list Byte.byte) : option GoError * nat :=
  (Some (EResponse 1001 ""
           (Some (EParse 1002 KindUnsupportedFormat "unsupported content type video/mp4" None))),
   length body).

Definition sample_request (m p : string) : Request :=
  {| Method := m; EscapedPath := p; URLPath := p; ReqBody := [] |}.

Definition sample_response (m p : string) (code : Z) : Response :=
  {| StatusCode := code; Header := [("Content-Type", ["video/mp4"])];
     Body := [Byte.x00; Byte.x01; Byte.x02]; Req := sample_request m p |}.

(** The exported option constructors, as a caller writes them ([WithRequestLogging]
    only sets the logger, which is left out). *)
Inductive OptionCall :=
| CWithBasePath (p : string)
| CWithInternalServerErrors
| CWithRequestValidation
| CWithoutFullCoverage
| CWithIgnoredUnsupportedBodyFormats.

Definition option_of (o : OptionCall) : Option :=
  match o with
  | CWithBasePath p => WithBasePath p
  | CWithInternalServerErrors => WithInternalServerErrors
  | CWithRequestValidation => WithRequestValidation
  | CWithoutFullCoverage => WithoutFullCoverage
  | CWithIgnoredUnsupportedBodyFormats => WithIgnoredUnsupportedBodyFormats
  end.

(** A model whose GET "/ping" documents the codes "200" and "default". *)
Definition sample_default_get : Operation := {| op_id := 4; Responses := ["200"; "default"] |}.

Definition sample_default_spec : T :=
  {| Paths := [("/ping", {| Connect := None; Delete := None; Get := Some sample_default_get;
                            Head := None; Options := None; Patch := None; Post := None;
                            Put := None; Trace := None |})] |}.

Section Collaborators.

(** [regexp.Compile] ([None] when the pattern does not compile),
    [MatchString], and the name/value pairs built from [FindStringSubmatch]
    and [SubexpNames]. *)
Variable Compile : string -> option Regexp.
Variable MatchString : Regexp -> string -> bool.
Variable Submatches : Regexp -> string -> list (string * string).

(** [openapi3filter.ValidateRequest] on the route, request and path params. *)
Variable ValidateRequest : Route -> Request -> list (string * string) -> option GoError.

(** [openapi3filter.ValidateResponse]: its error, and how many bytes it read
    from the body stream it is handed. *)
Variable ValidateResponse :
  Route -> Request -> list (string * string) -> Z -> list (string * list string) ->
  list Byte.byte -> option GoError * nat.

(** The inner loop of [loadPath] over [op.Responses.Map()] for one method. *)
Definition resp_endpoints (c : config) (s : T) (re : Regexp) (p : string) (i : PathItem)
  (m : string) (op : Operation) : list endpoint :=
  flat_map (fun responseCode =>
    if negb (checkInternalServerErrors c) && String.eqb responseCode "500" then []
    else [ {| checked := false; method := m; response := responseCode; uriRe := re;
              path := basePath c ++ p;
              route := {| route_spec := s; route_item := i; route_method := m;
                          route_op := op |} |} ])
    (Responses op).

(** The endpoints [loadPath] appends for one path item, once the regular
    expression has compiled: the loop over [supportedMethods]. *)
Definition path_endpoints (c : config) (s : T) (re : Regexp) (p : string) (i : PathItem)
  : list endpoint :=
  flat_map (fun m =>
    match GetOperation i m with
    | None => []
    | Some op => resp_endpoints c s re p i m op
    end) supportedMethods.

(** [Verifier.loadPath]: [None] is the returned error. *)
Definition loadPath (v : Verifier) (p : string) (i : PathItem) : option Verifier :=
  let uri := "^" ++ basePath (conf v) ++ ReplaceParams p ++ "$" in
  match Compile uri with
  | None => None
  | Some re =>
      Some (mkVerifier (endpoints v ++ path_endpoints (conf v) (spec v) re p i)%list
              (spec v) (errors v) (conf v) (alloc v))
  end.

(** The loop of [Verifier.loadPaths] over [v.spec.Paths.Map()]. *)
Fixpoint loadPaths_from (v : Verifier) (l : list (string * PathItem)) : option Verifier :=
  match l with
  | [] => Some v
  | (p, i) :: r =>
      match loadPath v p i with
      | None => None
      | Some v' => loadPaths_from v' r
      end
  end.

Definition loadPaths (v : Verifier) : option Verifier := loadPaths_from v (Paths (spec v)).

(** [NewVerifier], from the model [loadSpec] produced. *)
Definition NewVerifier (s : T) (opts : list Option) : option Verifier :=
  loadPaths (mkVerifier [] s [] (getConfig opts) 0).

(** The first endpoint, in table order, that the [for] loop of [Record]
    stops at, with its index. *)
Fixpoint find_endpoint (eps : list endpoint) (m code p : string) (idx : nat)
  : option (nat * endpoint) :=
  match eps with
  | [] => None
  | e :: r =>
      if String.eqb (method e) m && String.eqb (response e) code && MatchString (uriRe e) p
      then Some (idx, e)
      else find_endpoint r m code p (S idx)
  end.

Definition is_unsupported_format (err : GoError) : bool :=
  match as_parse err with
  | Some (_, KindUnsupportedFormat) => true
  | _ => false
  end.

(** [Verifier.Record]: the new Verifier, and the response with the body the
    caller observes afterwards. *)
Definition Record (v : Verifier) (res : Response) : Verifier * Response :=
  let req := Req res in
  let a := alloc v in
  match find_endpoint (endpoints v) (Method req) (Itoa (StatusCode res)) (EscapedPath req) 0 with
  | Some (idx, e) =>
      let params := Submatches (uriRe e) (EscapedPath req) in
      let reqErrs :=
        if checkRequest (conf v) then
          match ValidateRequest (route e) req params with
          | Some err =>
              [joinError (S a) ErrRequestInvalid
                 (EWrap a (Method req ++ " " ++ URLPath req ++ ": " ++ Error err) err)]
          | None => []
          end
        else [] in
      let '(responseErr, n) :=
        ValidateResponse (route e) req params (StatusCode res) (Header res) (Body res) in
      let bodyBytes := firstn n (Body res) in
      let res' := if Nat.ltb 0 (length bodyBytes) then set_Body res bodyBytes
                  else set_Body res (skipn n (Body res)) in
      let eps' := <[idx := set_checked e]> (endpoints v) in
      let respErrs :=
        match responseErr with
        | None => []
        | Some err =>
            if ignoreUnsupportedBodyFormats (conf v) && is_unsupported_format err then []
            else [joinError (a + 3) ErrResponseInvalid
                    (EWrap (a + 2) (Method req ++ " " ++ URLPath req ++ ": " ++
                                    Itoa (StatusCode res) ++ ": " ++ Error err) err)]
        end in
      (mkVerifier eps' (spec v) (errors v ++ reqErrs ++ respErrs)%list (conf v) (a + 4), res')
  | None =>
      if checkInternalServerErrors (conf v) || negb (StatusCode res =? StatusInternalServerError)%Z
      then (mkVerifier (endpoints v) (spec v)
              (errors v ++ [joinError (S a) ErrNotPartOfSpec
                              (EString a (Method req ++ " " ++ URLPath req ++ ": " ++
                                          Itoa (StatusCode res)))])
              (conf v) (a + 2), res)
      else (v, res)
  end.

(** The [NotChecked] errors [CurrentErrors] builds, one per unchecked endpoint. *)
Fixpoint notChecked (eps : list endpoint) (a : nat) : list GoError :=
  match eps with
  | [] => []
  | e :: r =>
      if checked e then notChecked r a
      else joinError (S a) ErrNotChecked
             (EString a (method e ++ " " ++ path e ++ ": " ++ response e))
           :: notChecked r (a + 2)
  end.

(** [Verifier.CurrentErrors]: [append(v.errors, errs...)]. *)
Definition CurrentErrors (v : Verifier) : list GoError * Verifier :=
  let errs := if disableFullCoverage (conf v) then [] else notChecked (endpoints v) (alloc v) in
  ((errors v ++ errs)%list,
   mkVerifier (endpoints v) (spec v) (errors v) (conf v) (alloc v + 2 * length (endpoints v))).

(** [Verifier.CurrentError]: [errors.Join] of [CurrentErrors()], nil when
    there is nothing to join. *)
Definition CurrentError (v : Verifier) : option GoError * Verifier :=
  let '(errs, v') := CurrentErrors v in
  match errs with
  | [] => (None, v')
  | _ => (Some (EJoin (alloc v') errs),
          mkVerifier (endpoints v') (spec v') (errors v') (conf v') (S (alloc v')))
  end.

(** Modelled from the spec: [Verifier.Reset], called by [TestReset] but
    absent from the sources.  "Reset clears the Error Ledger and rebuilds the
    Coverage Table from the original specification model and policy."  The
    rebuild is the one [NewVerifier] ran on the same model and policy. *)
Definition Reset (v : Verifier) : Verifier :=
  match loadPaths (mkVerifier [] (spec v) [] (conf v) (alloc v)) with
  | Some v' => v'
  | None => mkVerifier [] (spec v) [] (conf v) (alloc v)
  end.

(** The states a Verifier reaches: construction, then any sequence of
    [Record], [CurrentErrors] and [Reset] calls. *)
Inductive reachable (s : T) (opts : list Option) : Verifier -> Prop :=
| reach_new v : NewVerifier s opts = Some v -> reachable s opts v
| reach_record v res : reachable s opts v -> reachable s opts (fst (Record v res))
| reach_errors v : reachable s opts v -> reachable s opts (snd (CurrentErrors v))
| reach_reset v : reachable s opts v -> reachable s opts (Reset v).

(* ------------------------------------------------------------------ *)
(** ** Construction: the coverage table of a new Verifier *)

(** The documented (path, method, status-code) triples of a model, over
    every method field a path item has. *)
Definition allMethods : list string :=
  ["CONNECT"; "DELETE"; "GET"; "HEAD"; "OPTIONS"; "PATCH"; "POST"; "PUT"; "TRACE"].

Definition documented_path (p : string) (i : PathItem) : list (string * string * string) :=
  flat_map (fun m =>
    match GetOperation i m with
    | None => []
    | Some op => map (fun c => (p, m, c)) (Responses op)
    end) allMethods.

Definition documented (l : list (string * PathItem)) : list (string * string * string) :=
  flat_map (fun '(p, i) => documented_path p i) l.

(** A triple is tracked when its method is supported and, unless status 500
    is included, its code is not "500". *)
Definition tracked (include500 : bool) (t : string * string * string) : bool :=
  let '(_, m, c) := t in
  existsb (String.eqb m) supportedMethods && (include500 || negb (String.eqb c "500")).

Definition unchecked_count (eps : list endpoint) : nat :=
  length (List.filter (fun e => negb (checked e)) eps).

Definition is_class (s : SentinelError) (err : GoError) : bool :=
  match Sentinel err with
  | Some s' => String.eqb (sentinel_msg s') (sentinel_msg s)
  | None => false
  end.

(** An endpoint matches an exchange when [Record]'s loop would stop at it. *)
Definition matches (req : Request) (code : Z) (e : endpoint) : Prop :=
  method e = Method req /\ response e = Itoa code /\ MatchString (uriRe e) (EscapedPath req) = true.

(** The coordinate of an endpoint. *)
Definition coord (e : endpoint) : string * string * string := (path e, method e, response e).

(** A sequence of [Record] calls. *)
Definition RecordAll (v : Verifier) (ress : list Response) : Verifier :=
  fold_left (fun w r => fst (Record w r)) ress v.

Lemma tracked_eq (b : bool) (p m c : string) :
  tracked b (p, m, c) = existsb (String.eqb m) supportedMethods && (b || negb (String.eqb c "500")).
Proof. reflexivity. Qed.

Lemma length_resp_endpoints (c : config) (s : T) (re : Regexp) (p : string) (i : PathItem)
  (m : string) (op : Operation) :
  existsb (String.eqb m) supportedMethods = true ->
  length (resp_endpoints c s re p i m op)
  = length (List.filter (tracked (checkInternalServerErrors c))
              (map (fun rc => (p, m, rc)) (Responses op))).
Proof.
  intros Hm. unfold resp_endpoints.
  induction (Responses op) as [|rc l IH]; try reflexivity.
  cbn [map List.filter flat_map]. rewrite tracked_eq, Hm.
  destruct (checkInternalServerErrors c), (String.eqb rc "500");
    cbn [andb orb negb app length] in IH |- *; lia.
Qed.

Lemma filter_tracked_unsupported (b : bool) (p m : string) (l : list string) :
  existsb (String.eqb m) supportedMethods = false ->
  List.filter (tracked b) (map (fun c => (p, m, c)) l) = [].
Proof.
  intros Hm. induction l as [|c l IH]; [reflexivity|].
  cbn [map List.filter]. rewrite tracked_eq, Hm. exact IH.
Qed.

Lemma resp_endpoints_fresh (c : config) (s : T) (re : Regexp) (p : string) (i : PathItem)
  (m : string) (op : Operation) :
  In m supportedMethods ->
  Forall (fun e => checked e = false /\ In (method e) supportedMethods)
    (resp_endpoints c s re p i m op).
Proof.
  intros Hm. unfold resp_endpoints.
  induction (Responses op) as [|rc l IH]; simpl; [constructor|].
  destruct (negb (checkInternalServerErrors c) && String.eqb rc "500");
    simpl; [exact IH| constructor; auto].
Qed.

Ltac op_case :=
  match goal with
  | |- context [match ?o with None => [] | Some _ => _ end] => destruct o
  end.

(** One path item yields as many endpoints as it has tracked triples, all
    unchecked and all with a supported method. *)
Lemma path_endpoints_spec (c : config) (s : T) (re : Regexp) (p : string) (i : PathItem) :
  length (path_endpoints c s re p i)
  = length (List.filter (tracked (checkInternalServerErrors c)) (documented_path p i))
  /\ Forall (fun e => checked e = false /\ In (method e) supportedMethods)
       (path_endpoints c s re p i).
Proof.
  split.
  - unfold path_endpoints, documented_path. destruct i; cbn -[resp_endpoints tracked].
    repeat op_case; cbn -[resp_endpoints tracked];
      rewrite ?length_app, ?List.filter_app, ?length_app;
      rewrite ?(filter_tracked_unsupported _ p "CONNECT"),
              ?(filter_tracked_unsupported _ p "TRACE") by reflexivity;
      rewrite ?length_resp_endpoints by reflexivity;
      cbn [length List.filter]; lia.
  - unfold path_endpoints. destruct i; cbn -[resp_endpoints].
    repeat apply Forall_app_2; repeat op_case; try constructor;
      apply resp_endpoints_fresh; simpl; tauto.
Qed.

Lemma loadPaths_from_spec (l : list (string * PathItem)) (v v' : Verifier) :
  loadPaths_from v l = Some v' ->
  spec v' = spec v /\ conf v' = conf v /\ errors v' = errors v /\ alloc v' = alloc v /\
  exists eps, endpoints v' = (endpoints v ++ eps)%list /\
    length eps = length (List.filter (tracked (checkInternalServerErrors (conf v))) (documented l)) /\
    Forall (fun e => checked e = false /\ In (method e) supportedMethods) eps.
Proof.
  revert v. induction l as [|[p i] l IH]; intros v H; simpl in H.
  - injection H as <-. repeat split; auto. exists []. rewrite app_nil_r. auto.
  - unfold loadPath in H. destruct (Compile _) as [re|]; [|discriminate].
    apply IH in H as (Hs & Hc & He & Ha & eps & Heps & Hlen & Hfr). simpl in *.
    repeat split; auto.
    destruct (path_endpoints_spec (conf v) (spec v) re p i) as [Hl1 Hf1].
    exists (path_endpoints (conf v) (spec v) re p i ++ eps)%list.
    rewrite Heps, <- app_assoc. repeat split; auto.
    + cbn [documented flat_map]. rewrite List.filter_app, !length_app, Hl1, Hlen. reflexivity.
    + apply Forall_app_2; auto.
Qed.

Lemma notChecked_spec (eps : list endpoint) (a : nat) :
  length (notChecked eps a) = unchecked_count eps /\
  Forall (fun err => exists e a', In e eps /\ checked e = false /\
            err = joinError (S a') ErrNotChecked
                    (EString a' (method e ++ " " ++ path e ++ ": " ++ response e)))
    (notChecked eps a).
Proof.
  revert a. induction eps as [|e eps IH]; intros a; simpl; [split; [reflexivity|constructor]|].
  unfold unchecked_count in *. simpl.
  destruct (checked e) eqn:Hc; simpl.
  - destruct (IH a) as [H1 H2]. split; [exact H1|].
    eapply Forall_impl; [exact H2|]. intros x (e' & a' & Hin & Hck & ->). eauto 6.
  - destruct (IH (a + 2)) as [H1 H2]. split; [lia|].
    constructor; [exists e, a; auto|].
    eapply Forall_impl; [exact H2|]. intros x (e' & a' & Hin & Hck & ->). eauto 6.
Qed.

(** C1: right after construction, the unchecked coordinates are exactly the
    documented triples with a supported method, status 500 left out unless
    internal server errors are included; every one of them is reported by
    [CurrentErrors] as a [NotChecked] error (none under [WithoutFullCoverage]),
    and every tracked or reported coordinate has a supported method. *)
Theorem NewVerifier_unchecked_count (s : T) (opts : list Option) (v : Verifier) :
  NewVerifier s opts = Some v ->
  let n := length (List.filter (tracked (checkInternalServerErrors (getConfig opts)))
                     (documented (Paths s))) in
  unchecked_count (endpoints v) = n /\
  length (fst (CurrentErrors v)) = (if disableFullCoverage (getConfig opts) then 0 else n) /\
  Forall (fun e => In (method e) supportedMethods) (endpoints v) /\
  Forall (fun err => exists e a, In e (endpoints v) /\ In (method e) supportedMethods /\
            err = joinError (S a) ErrNotChecked
                    (EString a (method e ++ " " ++ path e ++ ": " ++ response e)))
    (fst (CurrentErrors v)).
Proof.
  intros H. unfold NewVerifier, loadPaths in H. cbv zeta.
  apply loadPaths_from_spec in H as (Hs & Hc & He & Ha & eps & Heps & Hlen & Hfr).
  simpl in *. rewrite Heps. simpl.
  assert (Hu : unchecked_count eps = length eps).
  { unfold unchecked_count. clear Hlen Heps. induction Hfr as [|e l [He1 _] _ IH]; simpl; auto.
    rewrite He1. simpl. lia. }
  assert (Fsup : Forall (fun e => In (method e) supportedMethods) eps).
  { eapply Forall_impl; [exact Hfr|]. intros e [_ Hin]; exact Hin. }
  unfold CurrentErrors. simpl. rewrite He, Hc, Ha. simpl.
  destruct (notChecked_spec eps 0) as [Hn Hf].
  repeat split.
  - rewrite Hu. exact Hlen.
  - destruct (disableFullCoverage (getConfig opts)); simpl; [reflexivity|]. lia.
  - exact Fsup.
  - destruct (disableFullCoverage (getConfig opts)); simpl; [constructor|].
    eapply Forall_impl; [exact Hf|]. intros err (e & a & Hin & _ & ->).
    exists e, a. split; [exact Hin|]. split; [|reflexivity].
    rewrite List.Forall_forall in Fsup. exact (Fsup e Hin).
Qed.

(* ------------------------------------------------------------------ *)
(** ** Record *)

Lemma find_endpoint_None (eps : list endpoint) (req : Request) (code : Z) (k : nat) :
  (forall e, In e eps -> ~ matches req code e) ->
  find_endpoint eps (Method req) (Itoa code) (EscapedPath req) k = None.
Proof.
  revert k. induction eps as [|e eps IH]; intros k H; simpl; [reflexivity|].
  destruct (String.eqb (method e) (Method req)) eqn:H1,
           (String.eqb (response e) (Itoa code)) eqn:H2,
           (MatchString (uriRe e) (EscapedPath req)) eqn:H3; simpl;
    try (apply IH; intros e' Hin; apply H; right; exact Hin).
  exfalso. apply (H e (or_introl eq_refl)).
  apply String.eqb_eq in H1, H2. repeat split; assumption.
Qed.

Lemma find_endpoint_Some (eps : list endpoint) (req : Request) (code : Z) (k idx : nat) (e : endpoint) :
  find_endpoint eps (Method req) (Itoa code) (EscapedPath req) k = Some (idx, e) ->
  k <= idx /\ eps !! (idx - k) = Some e /\ matches req code e /\
  (forall j e', j < idx - k -> eps !! j = Some e' -> ~ matches req code e').
Proof.
  revert k. induction eps as [|e0 eps IH]; intros k H; simpl in H; [discriminate|].
  destruct (String.eqb (method e0) (Method req)) eqn:H1,
           (String.eqb (response e0) (Itoa code)) eqn:H2,
           (MatchString (uriRe e0) (EscapedPath req)) eqn:H3; simpl in H;
    try (injection H as <- <-;
         apply String.eqb_eq in H1, H2;
         rewrite Nat.sub_diag; repeat split; auto; intros j e' Hj; lia);
    (apply IH in H as (Hk & Hl & Hm & Hfirst);
     split; [lia|];
     replace (idx - k) with (S (idx - S k)) by lia;
     split; [exact Hl|]; split; [exact Hm|];
     intros [|j] e' Hj Hj'; simpl in Hj';
       [ injection Hj' as <-; intros (Hm1 & Hm2 & Hm3);
         apply String.eqb_neq in H1 || apply String.eqb_neq in H2 || idtac;
         try congruence
       | apply (Hfirst j e'); [lia | exact Hj'] ]).
Qed.

(** Every [Record] keeps the table's coordinates, only ever sets checked flags,
    and only appends to the ledger. *)
Lemma Record_frame (v : Verifier) (res : Response) :
  let v' := fst (Record v res) in
  map coord (endpoints v') = map coord (endpoints v) /\
  Forall2 (fun e e' => checked e = true -> checked e' = true) (endpoints v) (endpoints v') /\
  spec v' = spec v /\ conf v' = conf v /\
  exists added, errors v' = (errors v ++ added)%list /\
    Forall (fun x => is_class ErrRequestInvalid x = true \/ is_class ErrResponseInvalid x = true \/
                     is_class ErrNotPartOfSpec x = true) added.
Proof.
  unfold Record. cbv zeta.
  destruct (find_endpoint _ _ _ _ 0) as [[idx e]|] eqn:Hf.
  - apply find_endpoint_Some in Hf as (_ & Hl & _ & _). rewrite Nat.sub_0_r in Hl.
    destruct (ValidateResponse _ _ _ _ _ _) as [respErr n]. simpl.
    repeat split.
    + clear - Hl. revert idx Hl. induction (endpoints v) as [|x eps IH]; intros [|idx] Hl;
        simpl in *; try discriminate.
      * injection Hl as ->. reflexivity.
      * f_equal. apply IH. exact Hl.
    + clear - Hl. revert idx Hl. induction (endpoints v) as [|x eps IH]; intros [|idx] Hl;
        simpl in *; try discriminate.
      * injection Hl as ->. constructor; [reflexivity|].
        clear. induction eps; constructor; auto.
      * constructor; auto.
    + eexists. split; [reflexivity|].
      apply Forall_app_2.
      * destruct (checkRequest (conf v)); [|constructor].
        destruct (ValidateRequest _ _ _); constructor; [|constructor]. left. reflexivity.
      * destruct respErr; [|constructor].
        destruct (_ && _); constructor; [|constructor]. right; left. reflexivity.
  - destruct (_ || _); simpl.
    + repeat split.
      * clear. induction (endpoints v); constructor; auto.
      * eexists. split; [reflexivity|]. constructor; [|constructor]. right; right. reflexivity.
    + repeat split.
      * clear. induction (endpoints v); constructor; auto.
      * exists []. rewrite app_nil_r. split; [reflexivity|constructor].
Qed.

(** C2: an exchange that matches no coordinate of the table (no endpoint has
    its method and status code with a path pattern matching its path) appends
    exactly one [NotPartOfSpec] error, or none when its status is 500 and
    internal server errors are not included; nothing else changes. *)
Theorem Record_not_part_of_spec (v : Verifier) (res : Response) :
  (forall e, In e (endpoints v) -> ~ matches (Req res) (StatusCode res) e) ->
  let v' := fst (Record v res) in
  endpoints v' = endpoints v /\ snd (Record v res) = res /\
  exists added, errors v' = (errors v ++ added)%list /\
    length added = (if checkInternalServerErrors (conf v) ||
                       negb (StatusCode res =? StatusInternalServerError)%Z then 1 else 0) /\
    Forall (fun x => is_class ErrNotPartOfSpec x = true) added.
Proof.
  intros H. unfold Record. cbv zeta.
  rewrite (find_endpoint_None (endpoints v) (Req res) (StatusCode res) 0 H).
  destruct (_ || _); simpl; repeat split.
  - eexists. split; [reflexivity|]. split; [reflexivity|]. constructor; [reflexivity|constructor].
  - exists []. rewrite app_nil_r. split; [reflexivity|]. split; [reflexivity|constructor].
Qed.

(* ------------------------------------------------------------------ *)
(** ** CurrentErrors and Reset *)

Lemma notChecked_Forall2 (eps : list endpoint) (a : nat) :
  Forall2 (fun e err => exists a', err = joinError (S a') ErrNotChecked
                                  (EString a' (method e ++ " " ++ path e ++ ": " ++ response e)))
    (List.filter (fun e => negb (checked e)) eps) (notChecked eps a).
Proof.
  revert a. induction eps as [|e eps IH]; intros a; simpl; [constructor|].
  destruct (checked e); simpl; [apply IH|].
  constructor; [eexists; reflexivity|apply IH].
Qed.

Lemma Reset_shape (v : Verifier) :
  spec (Reset v) = spec v /\ conf (Reset v) = conf v /\ errors (Reset v) = [].
Proof.
  unfold Reset, loadPaths. simpl.
  destruct (loadPaths_from _ _) as [v'|] eqn:H; [|repeat split].
  apply loadPaths_from_spec in H as (Hs & Hc & He & _). simpl in *. auto.
Qed.

Lemma class_not_checked (x : GoError) :
  is_class ErrRequestInvalid x = true \/ is_class ErrResponseInvalid x = true \/
  is_class ErrNotPartOfSpec x = true ->
  is_class ErrNotChecked x = false.
Proof.
  unfold is_class. destruct (Sentinel x) as [s|]; [|auto].
  intros [H|[H|H]]; apply String.eqb_eq in H; simpl in H; rewrite H; reflexivity.
Qed.

(** What every reachable state satisfies: the model and policy are the ones
    given at construction, and the ledger holds no [NotChecked] error. *)
Lemma reachable_inv (s : T) (opts : list Option) (v : Verifier) :
  reachable s opts v ->
  spec v = s /\ conf v = getConfig opts /\
  Forall (fun x => is_class ErrNotChecked x = false) (errors v).
Proof.
  induction 1 as [v H|v res _ (Hs & Hc & He)|v _ (Hs & Hc & He)|v _ (Hs & Hc & He)].
  - unfold NewVerifier, loadPaths in H.
    apply loadPaths_from_spec in H as (Hs & Hc & He & _). simpl in *.
    rewrite He. auto.
  - destruct (Record_frame v res) as (_ & _ & Hs' & Hc' & added & Ha & Hf).
    rewrite Hs', Hc', Ha. repeat split; auto.
    apply Forall_app_2; [exact He|].
    eapply Forall_impl; [exact Hf|]. exact class_not_checked.
  - unfold CurrentErrors. simpl. auto.
  - destruct (Reset_shape v) as (Hs' & Hc' & He'). rewrite Hs', Hc', He'. auto.
Qed.

(** C3: at every reachable state, [CurrentErrors] returns the ledger followed
    by one [NotChecked] error per endpoint whose checked flag is false at that
    moment, in table order; with [WithoutFullCoverage] it returns the ledger
    alone.  The ledger itself never holds a [NotChecked] error. *)
Theorem CurrentErrors_ledger_plus_unchecked (s : T) (opts : list Option) (v : Verifier) :
  reachable s opts v ->
  exists nc, fst (CurrentErrors v) = (errors v ++ nc)%list /\
    Forall (fun x => is_class ErrNotChecked x = false) (errors v) /\
    Forall (fun x => is_class ErrNotChecked x = true) nc /\
    (if disableFullCoverage (getConfig opts) then nc = []
     else Forall2 (fun e err => exists a, err = joinError (S a) ErrNotChecked
                                  (EString a (method e ++ " " ++ path e ++ ": " ++ response e)))
            (List.filter (fun e => negb (checked e)) (endpoints v)) nc).
Proof.
  intros Hr. destruct (reachable_inv s opts v Hr) as (_ & Hc & He).
  unfold CurrentErrors. simpl. rewrite Hc.
  destruct (disableFullCoverage (getConfig opts)).
  - exists []. repeat split; auto.
  - exists (notChecked (endpoints v) (alloc v)). repeat split; auto; [|apply notChecked_Forall2].
    pose proof (notChecked_Forall2 (endpoints v) (alloc v)) as H2.
    induction H2 as [|e err l l' (a & ->) _ IH]; constructor; auto.
Qed.

Lemma loadPaths_from_endpoints_det (l : list (string * PathItem)) (eps : list endpoint) (s : T)
  (errs errs' : list GoError) (c : config) (a a' : nat) :
  option_map endpoints (loadPaths_from (mkVerifier eps s errs c a) l)
  = option_map endpoints (loadPaths_from (mkVerifier eps s errs' c a') l).
Proof.
  revert eps. induction l as [|[p i] l IH]; intros eps; simpl; [reflexivity|].
  unfold loadPath. simpl. destruct (Compile _); [apply IH|reflexivity].
Qed.

(** C5 (Reset modelled from the spec): from any reachable state, [Reset]
    empties the ledger and yields exactly the table [NewVerifier] built from
    the same model and policy, every coordinate unchecked. *)
Theorem Reset_restores_fresh_table (s : T) (opts : list Option) (v v0 : Verifier) :
  NewVerifier s opts = Some v0 -> reachable s opts v ->
  endpoints (Reset v) = endpoints v0 /\ errors (Reset v) = [] /\
  Forall (fun e => checked e = false) (endpoints (Reset v)).
Proof.
  intros H0 Hr. destruct (reachable_inv s opts v Hr) as (Hs & Hc & _).
  assert (Hdet := loadPaths_from_endpoints_det (Paths s) [] s [] [] (getConfig opts) (alloc v) 0).
  unfold NewVerifier, loadPaths in H0. simpl in H0. rewrite H0 in Hdet.
  assert (He : endpoints (Reset v) = endpoints v0).
  { unfold Reset, loadPaths. simpl. rewrite Hs, Hc.
    destruct (loadPaths_from (mkVerifier [] s [] (getConfig opts) (alloc v)) (Paths s))
      as [v'|] eqn:E; simpl in Hdet;
      [|discriminate].
    injection Hdet as Hdet. exact Hdet. }
  split; [exact He|]. split; [apply Reset_shape|].
  rewrite He. apply loadPaths_from_spec in H0 as (_ & _ & _ & _ & eps & Heps & _ & Hf).
  simpl in Heps. rewrite Heps.
  eapply Forall_impl; [exact Hf|]. intros e [Hck _]. exact Hck.
Qed.

Lemma lookup_map_eq {A B : Type} (f : A -> B) (l l' : list A) (i : nat) (x : A) :
  map f l = map f l' -> l !! i = Some x -> exists y, l' !! i = Some y /\ f y = f x.
Proof.
  revert l' i. induction l as [|a l IH]; intros [|a' l'] [|i] Hm Hl; simpl in *;
    try discriminate; injection Hm as Hm1 Hm2.
  - injection Hl as <-. eauto.
  - eauto.
Qed.

Lemma lookup_Forall2_checked (l l' : list endpoint) (i : nat) (x : endpoint) :
  Forall2 (fun e e' => checked e = true -> checked e' = true) l l' ->
  l !! i = Some x -> checked x = true -> exists y, l' !! i = Some y /\ checked y = true.
Proof.
  intros H. revert i. induction H as [|a b l l' Hab _ IH]; intros [|i] Hl Hx; simpl in *;
    try discriminate.
  - injection Hl as <-. eauto.
  - eauto.
Qed.

Lemma unchecked_count_mark (l : list endpoint) (idx : nat) (e : endpoint) :
  l !! idx = Some e ->
  unchecked_count (<[idx := set_checked e]> l) + (if checked e then 0 else 1) = unchecked_count l.
Proof.
  unfold unchecked_count. revert idx. induction l as [|x l IH]; intros [|idx] H; simpl in *;
    try discriminate.
  - injection H as ->. simpl. destruct (checked e); simpl; lia.
  - specialize (IH idx H). destruct (checked x); simpl; lia.
Qed.

(** C10: an exchange that matches an endpoint marks the endpoint [Record]
    selects (the first match in table order) checked, whatever the request
    and response validators return; the unchecked count drops by one if it
    was unchecked, and the endpoint stays checked, with the same coordinate,
    through every later [Record]. *)
Theorem Record_marks_matched (v : Verifier) (res : Response) (idx : nat) (e : endpoint) :
  find_endpoint (endpoints v) (Method (Req res)) (Itoa (StatusCode res))
    (EscapedPath (Req res)) 0 = Some (idx, e) ->
  let v' := fst (Record v res) in
  endpoints v !! idx = Some e /\ matches (Req res) (StatusCode res) e /\
  endpoints v' !! idx = Some (set_checked e) /\
  unchecked_count (endpoints v') + (if checked e then 0 else 1) = unchecked_count (endpoints v) /\
  (forall ress, exists e', endpoints (RecordAll v' ress) !! idx = Some e' /\
                      checked e' = true /\ coord e' = coord e).
Proof.
  intros Hf. cbv zeta.
  pose proof Hf as Hf'. apply find_endpoint_Some in Hf' as (_ & Hl & Hm & _).
  rewrite Nat.sub_0_r in Hl.
  assert (Hl' : endpoints (fst (Record v res)) !! idx = Some (set_checked e)).
  { unfold Record. rewrite Hf. destruct (ValidateResponse _ _ _ _ _ _). simpl.
    apply list_lookup_insert_eq. eapply lookup_lt_Some. exact Hl. }
  split; [exact Hl|]. split; [exact Hm|]. split; [exact Hl'|]. split.
  - unfold Record. rewrite Hf. destruct (ValidateResponse _ _ _ _ _ _). simpl.
    apply unchecked_count_mark. exact Hl.
  - intros ress. unfold RecordAll.
    assert (Hgen : forall w, (exists e', endpoints w !! idx = Some e' /\ checked e' = true /\
                                       coord e' = coord e) ->
               exists e', endpoints (fold_left (fun w r => fst (Record w r)) ress w) !! idx = Some e'
                          /\ checked e' = true /\ coord e' = coord e).
    { induction ress as [|r ress IH]; intros w Hw; simpl; [exact Hw|].
      apply IH. destruct Hw as (e1 & H1 & H2 & H3).
      destruct (Record_frame w r) as (Hc & Hck & _).
      destruct (lookup_map_eq coord _ _ idx e1 (eq_sym Hc) H1) as (y & Hy & Hcy).
      destruct (lookup_Forall2_checked _ _ idx e1 Hck H1 H2) as (y' & Hy' & Hcy').
      assert (y' = y) as -> by congruence.
      exists y. split; [exact Hy|]. split; [exact Hcy'|]. congruence. }
    apply Hgen. exists (set_checked e). split; [exact Hl'|]. split; reflexivity.
Qed.

(** C8: for a matched exchange, the body the caller reads after [Record] is
    the whole original body, whether validation succeeds or fails, when the
    response validator reads either none of the body or all of it (kin-openapi
    reads it with [io.ReadAll], or not at all when the response declares no
    content or its media type is not declared). *)
Theorem Record_restores_body (v : Verifier) (res : Response) (idx : nat) (e : endpoint) :
  find_endpoint (endpoints v) (Method (Req res)) (Itoa (StatusCode res))
    (EscapedPath (Req res)) 0 = Some (idx, e) ->
  (let n := snd (ValidateResponse (route e) (Req res) (Submatches (uriRe e) (EscapedPath (Req res)))
                   (StatusCode res) (Header res) (Body res)) in
   n = 0 \/ length (Body res) <= n) ->
  Body (snd (Record v res)) = Body res.
Proof.
  intros Hf Hn. unfold Record. rewrite Hf.
  destruct (ValidateResponse _ _ _ _ _ _) as [respErr n] eqn:Hv. simpl in Hn.
  simpl.
  destruct Hn as [-> | Hle].
  - simpl. reflexivity.
  - rewrite (firstn_all2 (Body res) Hle), (skipn_all2 (Body res) Hle).
    destruct (Body res) eqn:Hb; reflexivity.
Qed.

(** C9 (amended): for a matched exchange whose response validation fails with
    [err], [Record] appends no [ResponseInvalid] error when unsupported body
    formats are ignored and the first [*ParseError] in [err]'s chain has kind
    [KindUnsupportedFormat], and exactly one otherwise; the only other error it
    may append is the [RequestInvalid] error of request validation. *)
Theorem Record_response_invalid (v : Verifier) (res : Response) (idx : nat) (e : endpoint)
  (err : GoError) :
  find_endpoint (endpoints v) (Method (Req res)) (Itoa (StatusCode res))
    (EscapedPath (Req res)) 0 = Some (idx, e) ->
  fst (ValidateResponse (route e) (Req res) (Submatches (uriRe e) (EscapedPath (Req res)))
         (StatusCode res) (Header res) (Body res)) = Some err ->
  exists reqErrs respErrs,
    errors (fst (Record v res)) = (errors v ++ reqErrs ++ respErrs)%list /\
    length reqErrs <= 1 /\ Forall (fun x => is_class ErrRequestInvalid x = true) reqErrs /\
    length respErrs = (if ignoreUnsupportedBodyFormats (conf v) && is_unsupported_format err
                       then 0 else 1) /\
    Forall (fun x => is_class ErrResponseInvalid x = true) respErrs.
Proof.
  intros Hf Hr. unfold Record. rewrite Hf.
  destruct (ValidateResponse _ _ _ _ _ _) as [respErr n] eqn:Hv.
  simpl in Hr. subst respErr. simpl.
  eexists _, _. split; [reflexivity|].
  split; [|split; [|split]].
  - destruct (checkRequest (conf v)); [destruct (ValidateRequest _ _ _)|]; simpl; lia.
  - destruct (checkRequest (conf v)); [destruct (ValidateRequest _ _ _)|]; repeat constructor.
  - destruct (_ && _); reflexivity.
  - destruct (_ && _); repeat constructor.
Qed.

(* ------------------------------------------------------------------ *)
(** ** Further properties of the Verifier *)

Lemma loadPaths_from_None (l : list (string * PathItem)) (v : Verifier) :
  loadPaths_from v l = None <->
  exists p i, In (p, i) l /\ Compile ("^" ++ basePath (conf v) ++ ReplaceParams p ++ "$") = None.
Proof.
  revert v. induction l as [|[p i] l IH]; intros v; simpl.
  - split; [discriminate|]. intros (? & ? & [] & _).
  - unfold loadPath. cbv zeta. destruct (Compile _) as [re|] eqn:Hc.
    + rewrite IH. simpl. split.
      * intros (p' & i' & Hin & Hc'). exists p', i'. auto.
      * intros (p' & i' & [Heq|Hin] & Hc').
        -- injection Heq as -> ->. congruence.
        -- exists p', i'. auto.
    + split; [intros _; exists p, i; auto|reflexivity].
Qed.

(** [NewVerifier] fails exactly when the regular expression built for one of
    the model's paths (the base path, then the path with each placeholder
    turned into a named group) does not compile. *)
Theorem NewVerifier_None_iff (s : T) (opts : list Option) :
  NewVerifier s opts = None <->
  exists p i, In (p, i) (Paths s) /\
    Compile ("^" ++ basePath (getConfig opts) ++ ReplaceParams p ++ "$") = None.
Proof. unfold NewVerifier, loadPaths. apply loadPaths_from_None. Qed.

Lemma notChecked_nil (eps : list endpoint) (a : nat) :
  notChecked eps a = [] <-> Forall (fun e => checked e = true) eps.
Proof.
  revert a. induction eps as [|e eps IH]; intros a; simpl.
  - split; [constructor|reflexivity].
  - destruct (checked e) eqn:Hc.
    + rewrite IH. split; [intros H; constructor; auto|intros H; inversion H; auto].
    + split; [discriminate|]. intros H. inversion H. congruence.
Qed.

(** [CurrentError] is nil exactly when the ledger is empty and either full
    coverage is not required or every endpoint of the table is checked. *)
Theorem CurrentError_nil_iff (v : Verifier) :
  fst (CurrentError v) = None <->
  errors v = [] /\
  (disableFullCoverage (conf v) = true \/ Forall (fun e => checked e = true) (endpoints v)).
Proof.
  unfold CurrentError, CurrentErrors. simpl.
  destruct (errors v ++ (if disableFullCoverage (conf v) then []
                         else notChecked (endpoints v) (alloc v)))%list eqn:E.
  - apply app_eq_nil in E as [He Hn]. split; [intros _|reflexivity].
    split; [exact He|]. destruct (disableFullCoverage (conf v)); [left; reflexivity|].
    right. apply (notChecked_nil _ (alloc v)). exact Hn.
  - split; [discriminate|]. intros [He Hd]. rewrite He in E. simpl in E.
    destruct (disableFullCoverage (conf v)); [discriminate|].
    destruct Hd as [Hd|Hd]; [discriminate|].
    apply (notChecked_nil _ (alloc v)) in Hd. congruence.
Qed.

Lemma is_EJoin (tc : bool) (t : GoError) (a : nat) (l : list GoError) :
  is_ tc t (EJoin a l) = (tc && iface_eqb (EJoin a l) t) || existsb (is_ tc t) l.
Proof.
  simpl. f_equal.
Qed.

(** [errors.Is(v.CurrentError(), sentinel)] holds exactly when
    [errors.Is(err, sentinel)] holds for one of the errors [CurrentErrors]
    returns. *)
Theorem CurrentError_Is_sentinel (v : Verifier) (s : SentinelError) :
  (exists j, fst (CurrentError v) = Some j /\ errors_Is j (ESentinel s) = true) <->
  (exists x, In x (fst (CurrentErrors v)) /\ errors_Is x (ESentinel s) = true).
Proof.
  unfold CurrentError. destruct (CurrentErrors v) as [errs v'] eqn:E. simpl.
  unfold errors_Is. simpl comparable.
  destruct errs as [|x0 errs].
  - simpl. split; [intros (j & Hj & _); discriminate|intros (x & [] & _)].
  - simpl fst. split.
    + intros (j & Hj & H). injection Hj as <-. rewrite is_EJoin in H.
      cbn [iface_eqb andb orb] in H.
      apply existsb_exists in H as (x & Hin & Hx). eauto.
    + intros (x & Hin & Hx). eexists. split; [reflexivity|].
      rewrite is_EJoin. cbn [iface_eqb andb orb]. apply existsb_exists. eauto.
Qed.

Lemma notChecked_messages (eps : list endpoint) (a : nat) :
  map Error (notChecked eps a)
  = map (fun e => "not checked: " ++ method e ++ " " ++ path e ++ ": " ++ response e)
      (List.filter (fun e => negb (checked e)) eps).
Proof.
  revert a. induction eps as [|e eps IH]; intros a; simpl; [reflexivity|].
  destruct (checked e); simpl; [apply IH|]. rewrite IH. reflexivity.
Qed.

(** The messages of [CurrentErrors]: the ledger's, then
    ["not checked: <method> <path>: <code>"] for each endpoint not yet
    checked, in table order, none of them under [WithoutFullCoverage]. *)
Theorem CurrentErrors_messages (v : Verifier) :
  map Error (fst (CurrentErrors v)) =
  (map Error (errors v) ++
   (if disableFullCoverage (conf v) then []
    else map (fun e => ("not checked: " ++ method e ++ " " ++ path e ++ ": " ++ response e)%string)
           (List.filter (fun e => negb (checked e)) (endpoints v))))%list.
Proof.
  unfold CurrentErrors. simpl. rewrite map_app. f_equal.
  destruct (disableFullCoverage (conf v)); [reflexivity|]. apply notChecked_messages.
Qed.

(** [CurrentErrors] only reads the Verifier: the table, the ledger, the model
    and the policy are unchanged, so calling it again reports the same
    messages. *)
Theorem CurrentErrors_read_only (v : Verifier) :
  let v' := snd (CurrentErrors v) in
  endpoints v' = endpoints v /\ errors v' = errors v /\ spec v' = spec v /\ conf v' = conf v /\
  map Error (fst (CurrentErrors v')) = map Error (fst (CurrentErrors v)).
Proof.
  cbv zeta. unfold CurrentErrors at 1 2 3 4 5. simpl.
  repeat split. unfold CurrentErrors. simpl. rewrite !map_app. f_equal.
  destruct (disableFullCoverage (conf v)); [reflexivity|]. rewrite !notChecked_messages.
  reflexivity.
Qed.

Lemma is_refl (t : GoError) : comparable t = true -> is_ true t t = true.
Proof.
  destruct t; simpl; intros H; try discriminate;
    rewrite ?Nat.eqb_refl, ?String.eqb_refl; try reflexivity.
  subst cmp. reflexivity.
Qed.

(** An exchange that matches no endpoint, and is not a 500 left out by the
    policy, appends one error whose message is
    ["not part of spec: <method> <path>: <status>"] and which [errors.Is]
    reports as [ErrNotPartOfSpec] and as no other sentinel. *)
Theorem Record_not_part_of_spec_error (v : Verifier) (res : Response) :
  (forall e, In e (endpoints v) -> ~ matches (Req res) (StatusCode res) e) ->
  (checkInternalServerErrors (conf v) ||
   negb (StatusCode res =? StatusInternalServerError)%Z) = true ->
  exists x, errors (fst (Record v res)) = (errors v ++ [x])%list /\
    Error x = "not part of spec: " ++ Method (Req res) ++ " " ++ URLPath (Req res) ++ ": " ++
              Itoa (StatusCode res) /\
    (forall s, errors_Is x (ESentinel s) = String.eqb "not part of spec" (sentinel_msg s)).
Proof.
  intros H Hc. unfold Record. cbv zeta.
  rewrite (find_endpoint_None (endpoints v) (Req res) (StatusCode res) 0 H), Hc. simpl.
  eexists. split; [reflexivity|]. split; [reflexivity|].
  intros s. reflexivity.
Qed.

(** When request validation is on and rejects a matched exchange with [err],
    [Record] appends, before any response error, an error whose message is
    ["request invalid: <method> <path>: " ++ err.Error()], which [errors.Is]
    reports as [ErrRequestInvalid] and, when [err] is comparable, as [err]. *)
Theorem Record_request_invalid_error (v : Verifier) (res : Response) (idx : nat) (e : endpoint)
  (err : GoError) :
  find_endpoint (endpoints v) (Method (Req res)) (Itoa (StatusCode res))
    (EscapedPath (Req res)) 0 = Some (idx, e) ->
  checkRequest (conf v) = true ->
  ValidateRequest (route e) (Req res) (Submatches (uriRe e) (EscapedPath (Req res))) = Some err ->
  exists x respErrs, errors (fst (Record v res)) = (errors v ++ x :: respErrs)%list /\
    Error x = "request invalid: " ++ Method (Req res) ++ " " ++ URLPath (Req res) ++ ": " ++
              Error err /\
    errors_Is x (ESentinel ErrRequestInvalid) = true /\
    (comparable err = true -> errors_Is x err = true).
Proof.
  intros Hf Hck Hv. unfold Record. cbv zeta. rewrite Hf, Hck, Hv.
  destruct (ValidateResponse _ _ _ _ _ _) as [respErr n]. simpl.
  eexists _, _. split; [reflexivity|]. split; [reflexivity|]. split.
  - unfold errors_Is. simpl. rewrite orb_true_r. reflexivity.
  - intros Hc. unfold errors_Is. rewrite Hc. simpl. rewrite is_refl by exact Hc.
    simpl. rewrite ?orb_true_r. reflexivity.
Qed.

(** When response validation of a matched exchange fails with [err], and the
    failure is not an ignored unsupported body format, [Record] appends as its
    last error one whose message is
    ["response invalid: <method> <path>: <status>: " ++ err.Error()], which
    [errors.Is] reports as [ErrResponseInvalid] and, when [err] is comparable,
    as [err]. *)
Theorem Record_response_invalid_error (v : Verifier) (res : Response) (idx : nat) (e : endpoint)
  (err : GoError) :
  find_endpoint (endpoints v) (Method (Req res)) (Itoa (StatusCode res))
    (EscapedPath (Req res)) 0 = Some (idx, e) ->
  fst (ValidateResponse (route e) (Req res) (Submatches (uriRe e) (EscapedPath (Req res)))
         (StatusCode res) (Header res) (Body res)) = Some err ->
  (ignoreUnsupportedBodyFormats (conf v) && is_unsupported_format err) = false ->
  exists reqErrs x, errors (fst (Record v res)) = (errors v ++ reqErrs ++ [x])%list /\
    Error x = "response invalid: " ++ Method (Req res) ++ " " ++ URLPath (Req res) ++ ": " ++
              Itoa (StatusCode res) ++ ": " ++ Error err /\
    errors_Is x (ESentinel ErrResponseInvalid) = true /\
    (comparable err = true -> errors_Is x err = true).
Proof.
  intros Hf Hr Hi. unfold Record. cbv zeta. rewrite Hf.
  destruct (ValidateResponse _ _ _ _ _ _) as [respErr n] eqn:Hv.
  simpl in Hr. subst respErr. simpl. rewrite Hi.
  eexists _, _. split; [reflexivity|]. split; [reflexivity|]. split.
  - unfold errors_Is. simpl. rewrite orb_true_r. reflexivity.
  - intros Hc. unfold errors_Is. rewrite Hc. simpl. rewrite is_refl by exact Hc.
    simpl. rewrite ?orb_true_r. reflexivity.
Qed.

Lemma Forall2_checked_trans (l1 l2 l3 : list endpoint) :
  Forall2 (fun e e' => checked e = true -> checked e' = true) l1 l2 ->
  Forall2 (fun e e' => checked e = true -> checked e' = true) l2 l3 ->
  Forall2 (fun e e' => checked e = true -> checked e' = true) l1 l3.
Proof.
  intros H. revert l3. induction H as [|a b l l' Hab _ IH]; intros l3 H'; inversion H'; subst;
    constructor; auto.
Qed.

Lemma unchecked_count_Forall2 (l l' : list endpoint) :
  Forall2 (fun e e' => checked e = true -> checked e' = true) l l' ->
  unchecked_count l' <= unchecked_count l.
Proof.
  unfold unchecked_count. induction 1 as [|a b l l' Hab _ IH]; simpl; [lia|].
  destruct (checked a), (checked b); simpl; lia.
Qed.

(** Any sequence of [Record] calls keeps the coordinates of the table in
    order, never unchecks an endpoint (so the unchecked count never grows),
    keeps the model and the policy, and only appends to the ledger, never a
    [NotChecked] error. *)
Theorem RecordAll_frame (v : Verifier) (ress : list Response) :
  let v' := RecordAll v ress in
  map coord (endpoints v') = map coord (endpoints v) /\
  Forall2 (fun e e' => checked e = true -> checked e' = true) (endpoints v) (endpoints v') /\
  unchecked_count (endpoints v') <= unchecked_count (endpoints v) /\
  spec v' = spec v /\ conf v' = conf v /\
  exists added, errors v' = (errors v ++ added)%list /\
    Forall (fun x => is_class ErrNotChecked x = false) added.
Proof.
  cbv zeta. unfold RecordAll.
  assert (H : forall w,
    let w' := fold_left (fun w r => fst (Record w r)) ress w in
    map coord (endpoints w') = map coord (endpoints w) /\
    Forall2 (fun e e' => checked e = true -> checked e' = true) (endpoints w) (endpoints w') /\
    spec w' = spec w /\ conf w' = conf w /\
    exists added, errors w' = (errors w ++ added)%list /\
      Forall (fun x => is_class ErrNotChecked x = false) added).
  { induction ress as [|r ress IH]; intros w; cbv zeta; simpl.
    - repeat split; [|exists []; rewrite app_nil_r; split; [reflexivity|constructor]].
      induction (endpoints w); constructor; auto.
    - destruct (Record_frame w r) as (Hc & Hck & Hs & Hcf & added & Ha & Hf).
      destruct (IH (fst (Record w r))) as (Hc' & Hck' & Hs' & Hcf' & added' & Ha' & Hf').
      split; [congruence|]. split; [eapply Forall2_checked_trans; eassumption|].
      split; [congruence|]. split; [congruence|].
      exists (added ++ added')%list. rewrite Ha', Ha, app_assoc. split; [reflexivity|].
      apply Forall_app_2; [|exact Hf'].
      eapply Forall_impl; [exact Hf|]. exact class_not_checked. }
  destruct (H v) as (H1 & H2 & H3 & H4 & H5).
  split; [exact H1|]. split; [exact H2|]. split; [apply unchecked_count_Forall2; exact H2|].
  auto.
Qed.

Lemma digits_numeric (fuel : nat) (n : Z) (acc : string) :
  numeric_code acc = true -> numeric_code (digits fuel n acc) = true.
Proof.
  revert n acc. induction fuel as [|f IH]; intros n acc Hacc; cbn [digits]; [exact Hacc|].
  assert (Hd : numeric_code (String (ascii_of_nat (48 + Z.to_nat (n mod 10))) acc) = true).
  { unfold numeric_code. cbn [list_ascii_of_string forallb]. fold (numeric_code acc).
    rewrite Hacc, andb_true_r.
    unfold is_digit. pose proof (Z.mod_pos_bound n 10 ltac:(lia)) as Hb.
    rewrite Ascii.nat_ascii_embedding by lia.
    assert (Hle : (48 <=? 48 + Z.to_nat (n mod 10))%nat = true) by (apply Nat.leb_le; lia).
    assert (Hle' : (48 + Z.to_nat (n mod 10) <=? 57)%nat = true) by (apply Nat.leb_le; lia).
    rewrite Hle, Hle'. reflexivity. }
  destruct (n <? 10)%Z; [exact Hd|]. apply IH. exact Hd.
Qed.

Lemma Itoa_numeric (n : Z) : numeric_code (Itoa n) = true.
Proof.
  unfold Itoa. destruct (n <? 0)%Z.
  - change (numeric_code (String "-" (digits 64 (- n) "")) = true).
    unfold numeric_code. cbn [list_ascii_of_string forallb].
    fold (numeric_code (digits 64 (- n) "")).
    apply digits_numeric. reflexivity.
  - apply digits_numeric. reflexivity.
Qed.

Lemma Record_keeps_other (v : Verifier) (res : Response) (j : nat) (x : endpoint) :
  endpoints v !! j = Some x -> response x <> Itoa (StatusCode res) ->
  endpoints (fst (Record v res)) !! j = Some x.
Proof.
  intros Hj Hx. unfold Record. cbv zeta.
  destruct (find_endpoint _ _ _ _ 0) as [[idx e]|] eqn:Hf.
  - apply find_endpoint_Some in Hf as (_ & Hl & (_ & Hr & _) & _). rewrite Nat.sub_0_r in Hl.
    destruct (ValidateResponse _ _ _ _ _ _) as [respErr n]. simpl.
    destruct (Nat.eq_dec j idx) as [->|Hne].
    + rewrite Hl in Hj. injection Hj as ->. contradiction.
    + rewrite list_lookup_insert_ne by congruence. exact Hj.
  - destruct (_ || _); exact Hj.
Qed.

(** An endpoint whose documented response code is not a decimal numeral (an
    OpenAPI ["default"] or ["2XX"] key) is never selected by [Record], whose
    loop compares the code with [strconv.Itoa(res.StatusCode)]: through any
    sequence of [Record] calls it stays as it is, unchecked if it was. *)
Theorem non_numeric_code_never_checked (v : Verifier) (j : nat) (x : endpoint) :
  endpoints v !! j = Some x -> numeric_code (response x) = false ->
  forall ress, endpoints (RecordAll v ress) !! j = Some x.
Proof.
  intros Hj Hn ress. unfold RecordAll. revert v Hj.
  induction ress as [|r ress IH]; intros v Hj; simpl; [exact Hj|].
  apply IH. apply Record_keeps_other; [exact Hj|].
  intros Heq. rewrite Heq, Itoa_numeric in Hn. discriminate.
Qed.

End Collaborators.

(* ------------------------------------------------------------------ *)
(** ** The theorems at the sample inputs *)

(** C1 at the sample model: its tracked triples are GET 200 and PUT 204. *)
Lemma NewVerifier_unchecked_count_witness :
  exists v, NewVerifier sample_Compile sample_spec [] = Some v /\
    unchecked_count (endpoints v) = 2 /\ length (fst (CurrentErrors v)) = 2.
Proof.
  eexists. split; [vm_compute; reflexivity|].
  pose proof (NewVerifier_unchecked_count sample_Compile sample_MatchString sample_Submatches
                sample_spec [] _ ltac:(vm_compute; reflexivity)) as Ht.
  cbv zeta in Ht. destruct Ht as (H1 & H2 & _).
  rewrite H1, H2. vm_compute. split; reflexivity.
Defined.

(** C2 at the sample model: a GET "/ping" answered 404 is not documented. *)
Lemma Record_not_part_of_spec_witness :
  exists v, NewVerifier sample_Compile sample_spec [] = Some v /\
    (forall e, In e (endpoints v) ->
       ~ matches sample_MatchString (Req (sample_response "GET" "/ping" 404))
           (StatusCode (sample_response "GET" "/ping" 404)) e) /\
    length (errors (fst (Record sample_MatchString sample_Submatches sample_accept_request
                           sample_accept_response v (sample_response "GET" "/ping" 404)))) = 1.
Proof.
  eexists. split; [vm_compute; reflexivity|].
  match goal with |- (forall e, In e (endpoints ?v) -> _) /\ _ => set (v0 := v) end.
  assert (Hm : forall e, In e (endpoints v0) ->
               ~ matches sample_MatchString (Req (sample_response "GET" "/ping" 404))
                   (StatusCode (sample_response "GET" "/ping" 404)) e).
  { intros e He. vm_compute in He.
    destruct He as [<- | [<- | []]]; vm_compute; intros (_ & H & _); discriminate. }
  split; [exact Hm|].
  destruct (Record_not_part_of_spec sample_MatchString sample_Submatches sample_accept_request
              sample_accept_response v0 (sample_response "GET" "/ping" 404) Hm)
    as (_ & _ & added & Ha & Hl & _).
  rewrite Ha, length_app, Hl. vm_compute. reflexivity.
Defined.

(** C3 at the sample model, after an undocumented exchange: the ledger holds
    its [NotPartOfSpec] error, and the two unchecked endpoints follow it. *)
Lemma CurrentErrors_ledger_plus_unchecked_witness :
  exists v0, NewVerifier sample_Compile sample_spec [] = Some v0 /\
    let v := fst (Record sample_MatchString sample_Submatches sample_accept_request
                    sample_accept_response v0 (sample_response "GET" "/nope" 200)) in
    reachable sample_Compile sample_MatchString sample_Submatches sample_accept_request
      sample_accept_response sample_spec [] v /\
    length (errors v) = 1 /\
    exists nc, fst (CurrentErrors v) = (errors v ++ nc)%list /\ length nc = 2.
Proof.
  eexists. split; [vm_compute; reflexivity|]. cbv zeta.
  match goal with |- reachable _ _ _ _ _ _ _ ?v /\ _ => set (w := v) end.
  assert (Hr : reachable sample_Compile sample_MatchString sample_Submatches
                 sample_accept_request sample_accept_response sample_spec [] w).
  { apply reach_record. apply reach_new. vm_compute. reflexivity. }
  split; [exact Hr|]. split; [vm_compute; reflexivity|].
  destruct (CurrentErrors_ledger_plus_unchecked sample_Compile sample_MatchString
              sample_Submatches sample_accept_request sample_accept_response sample_spec [] w Hr)
    as (nc & Hnc & _ & _ & H4).
  exists nc. split; [exact Hnc|].
  apply Forall2_length in H4. rewrite <- H4. vm_compute. reflexivity.
Defined.

(** C5 at the sample model, after a matched exchange. *)
Lemma Reset_restores_fresh_table_witness :
  exists v0, NewVerifier sample_Compile sample_spec [] = Some v0 /\
    let v := fst (Record sample_MatchString sample_Submatches sample_accept_request
                    sample_accept_response v0 (sample_response "GET" "/ping" 200)) in
    reachable sample_Compile sample_MatchString sample_Submatches sample_accept_request
      sample_accept_response sample_spec [] v /\
    unchecked_count (endpoints v) = 1 /\
    endpoints (Reset sample_Compile v) = endpoints v0 /\ errors (Reset sample_Compile v) = [] /\
    Forall (fun e => checked e = false) (endpoints (Reset sample_Compile v)).
Proof.
  eexists. split; [vm_compute; reflexivity|]. cbv zeta.
  match goal with |- reachable _ _ _ _ _ _ _ ?v /\ _ => set (w := v) end.
  assert (Hr : reachable sample_Compile sample_MatchString sample_Submatches
                 sample_accept_request sample_accept_response sample_spec [] w).
  { apply reach_record. apply reach_new. vm_compute. reflexivity. }
  split; [exact Hr|]. split; [vm_compute; reflexivity|].
  apply (Reset_restores_fresh_table sample_Compile sample_MatchString sample_Submatches
           sample_accept_request sample_accept_response sample_spec []); [|exact Hr].
  vm_compute. reflexivity.
Defined.

(** C8 at the sample model: the response validator rejects the body after
    reading all of it; the caller still reads the three bytes. *)
Lemma Record_restores_body_witness :
  exists v idx e, NewVerifier sample_Compile sample_spec [] = Some v /\
    find_endpoint sample_MatchString (endpoints v) "GET" (Itoa 200) "/ping" 0 = Some (idx, e) /\
    Body (snd (Record sample_MatchString sample_Submatches sample_accept_request
                 sample_unsupported_response v (sample_response "GET" "/ping" 200)))
    = [Byte.x00; Byte.x01; Byte.x02].
Proof.
  do 3 eexists. split; [vm_compute; reflexivity|]. split; [vm_compute; reflexivity|].
  eapply (Record_restores_body sample_MatchString sample_Submatches sample_accept_request
           sample_unsupported_response _ (sample_response "GET" "/ping" 200) _ _).
  - vm_compute. reflexivity.
  - vm_compute. right. lia.
Defined.

(** C9 at the sample model: an unsupported body format, ignored. *)
Lemma Record_response_invalid_witness :
  exists v, NewVerifier sample_Compile sample_spec [WithIgnoredUnsupportedBodyFormats] = Some v /\
    errors (fst (Record sample_MatchString sample_Submatches sample_accept_request
                   sample_unsupported_response v (sample_response "GET" "/ping" 200))) = errors v.
Proof.
  eexists. split; [vm_compute; reflexivity|].
  match goal with |- context [Record _ _ _ _ ?v (sample_response _ _ _)] => set (w := v) end.
  destruct (find_endpoint sample_MatchString (endpoints w) "GET" (Itoa 200) "/ping" 0)
    as [[idx e]|] eqn:Hf; [|vm_compute in Hf; discriminate].
  destruct (Record_response_invalid sample_MatchString sample_Submatches sample_accept_request
              sample_unsupported_response w (sample_response "GET" "/ping" 200) idx e _ Hf eq_refl)
    as (reqErrs & respErrs & He & Hrq & _ & Hrs & _).
  vm_compute in Hrs.
  destruct respErrs; [|discriminate]. destruct reqErrs as [|x [|y r]].
  - rewrite He. vm_compute. reflexivity.
  - revert He. vm_compute. discriminate.
  - simpl in Hrq. lia.
Defined.

(** C9 fails as stated: with request validation on, a matched exchange whose
    response is rejected as an unsupported body format, that format ignored,
    still grows the ledger by the [RequestInvalid] error of its request. *)
Lemma Record_response_invalid_counterexample :
  exists v, NewVerifier sample_Compile sample_spec
              [WithRequestValidation; WithIgnoredUnsupportedBodyFormats] = Some v /\
    ignoreUnsupportedBodyFormats (conf v) = true /\
    is_unsupported_format (EResponse 1001 ""
      (Some (EParse 1002 KindUnsupportedFormat "unsupported content type video/mp4" None))) = true /\
    length (errors (fst (Record sample_MatchString sample_Submatches sample_reject_request
                           sample_unsupported_response v (sample_response "GET" "/ping" 200))))
    = S (length (errors v)).
Proof.
  eexists. split; [vm_compute; reflexivity|]. vm_compute. repeat split.
Qed.

(** C10 at the sample model: both validators reject the exchange, and its
    endpoint is marked checked all the same. *)
Lemma Record_marks_matched_witness :
  exists v, NewVerifier sample_Compile sample_spec [WithRequestValidation] = Some v /\
    unchecked_count (endpoints (fst (Record sample_MatchString sample_Submatches
       sample_reject_request sample_unsupported_response v (sample_response "GET" "/ping" 200))))
    + 1 = unchecked_count (endpoints v).
Proof.
  eexists. split; [vm_compute; reflexivity|].
  match goal with |- context [Record _ _ _ _ ?v (sample_response _ _ _)] => set (w := v) end.
  destruct (find_endpoint sample_MatchString (endpoints w) "GET" (Itoa 200) "/ping" 0)
    as [[idx e]|] eqn:Hf; [|vm_compute in Hf; discriminate].
  destruct (Record_marks_matched sample_MatchString sample_Submatches sample_reject_request
              sample_unsupported_response w (sample_response "GET" "/ping" 200) idx e Hf)
    as (_ & _ & _ & Hc & _).
  assert (Hce : checked e = false).
  { vm_compute in Hf. injection Hf as _ <-. reflexivity. }
  rewrite Hce in Hc. exact Hc.
Defined.


(** [Record_not_part_of_spec_error] at the sample model: a GET "/ping"
    answered 404. *)
Lemma Record_not_part_of_spec_error_witness :
  exists v, NewVerifier sample_Compile sample_spec [] = Some v /\
    exists x, errors (fst (Record sample_MatchString sample_Submatches sample_accept_request
                            sample_accept_response v (sample_response "GET" "/ping" 404)))
              = (errors v ++ [x])%list /\
      Error x = "not part of spec: GET /ping: 404" /\
      errors_Is x (ESentinel ErrNotPartOfSpec) = true /\
      errors_Is x (ESentinel ErrNotChecked) = false.
Proof.
  eexists. split; [vm_compute; reflexivity|].
  match goal with |- context [Record _ _ _ _ ?v (sample_response _ _ _)] => set (w := v) end.
  assert (Hm : forall e, In e (endpoints w) ->
               ~ matches sample_MatchString (Req (sample_response "GET" "/ping" 404))
                   (StatusCode (sample_response "GET" "/ping" 404)) e).
  { intros e He. vm_compute in He.
    destruct He as [<- | [<- | []]]; vm_compute; intros (_ & H & _); discriminate. }
  destruct (Record_not_part_of_spec_error sample_MatchString sample_Submatches
              sample_accept_request sample_accept_response w (sample_response "GET" "/ping" 404)
              Hm ltac:(vm_compute; reflexivity)) as (x & Hx & Hmsg & His).
  exists x. split; [exact Hx|]. split; [rewrite Hmsg; vm_compute; reflexivity|].
  rewrite !His. split; reflexivity.
Defined.

(** [Record_request_invalid_error] at the sample model, request validation
    on, the request rejected. *)
Lemma Record_request_invalid_error_witness :
  exists v, NewVerifier sample_Compile sample_spec [WithRequestValidation] = Some v /\
    exists x respErrs,
      errors (fst (Record sample_MatchString sample_Submatches sample_reject_request
                     sample_accept_response v (sample_response "GET" "/ping" 200)))
      = (errors v ++ x :: respErrs)%list /\
      Error x = "request invalid: GET /ping: header X-Id is required" /\
      errors_Is x (ESentinel ErrRequestInvalid) = true /\
      errors_Is x (EString 1000 "header X-Id is required") = true.
Proof.
  eexists. split; [vm_compute; reflexivity|].
  match goal with |- context [Record _ _ _ _ ?v (sample_response _ _ _)] => set (w := v) end.
  destruct (find_endpoint sample_MatchString (endpoints w) "GET" (Itoa 200) "/ping" 0)
    as [[idx e]|] eqn:Hf; [|vm_compute in Hf; discriminate].
  destruct (Record_request_invalid_error sample_MatchString sample_Submatches
              sample_reject_request sample_accept_response w (sample_response "GET" "/ping" 200)
              idx e (EString 1000 "header X-Id is required") Hf
              ltac:(vm_compute; reflexivity) ltac:(vm_compute; reflexivity))
    as (x & respErrs & Hx & Hmsg & His & Hise).
  exists x, respErrs. split; [exact Hx|]. split; [rewrite Hmsg; vm_compute; reflexivity|].
  split; [exact His|]. apply Hise. reflexivity.
Defined.

(** [Record_response_invalid_error] at the sample model: the body format is
    unsupported and not ignored. *)
Lemma Record_response_invalid_error_witness :
  exists v, NewVerifier sample_Compile sample_spec [] = Some v /\
    exists reqErrs x,
      errors (fst (Record sample_MatchString sample_Submatches sample_accept_request
                     sample_unsupported_response v (sample_response "GET" "/ping" 200)))
      = (errors v ++ reqErrs ++ [x])%list /\
      Error x = "response invalid: GET /ping: 200: unsupported content type video/mp4" /\
      errors_Is x (ESentinel ErrResponseInvalid) = true.
Proof.
  eexists. split; [vm_compute; reflexivity|].
  match goal with |- context [Record _ _ _ _ ?v (sample_response _ _ _)] => set (w := v) end.
  destruct (find_endpoint sample_MatchString (endpoints w) "GET" (Itoa 200) "/ping" 0)
    as [[idx e]|] eqn:Hf; [|vm_compute in Hf; discriminate].
  edestruct (Record_response_invalid_error sample_MatchString sample_Submatches
              sample_accept_request sample_unsupported_response w
              (sample_response "GET" "/ping" 200) idx e _ Hf eq_refl)
    as (reqErrs & x & Hx & Hmsg & His & _); [vm_compute; reflexivity|].
  exists reqErrs, x. split; [exact Hx|]. split; [rewrite Hmsg; vm_compute; reflexivity|].
  exact His.
Defined.

(** [non_numeric_code_never_checked] at a model whose GET "/ping" documents
    "200" and "default": after exchanges answered 200 and 500, the "default"
    endpoint is still unchecked. *)
Lemma non_numeric_code_never_checked_witness :
  exists v x, NewVerifier sample_Compile sample_default_spec [] = Some v /\
    endpoints v !! 1 = Some x /\ response x = "default" /\ checked x = false /\
    endpoints (RecordAll sample_MatchString sample_Submatches sample_accept_request
                 sample_accept_response v
                 [sample_response "GET" "/ping" 200; sample_response "GET" "/ping" 500])
      !! 1 = Some x.
Proof.
  do 2 eexists. split; [vm_compute; reflexivity|]. split; [vm_compute; reflexivity|].
  split; [reflexivity|]. split; [reflexivity|].
  apply non_numeric_code_never_checked; vm_compute; reflexivity.
Defined.

End Copper.

(* ------------------------------------------------------------------ *)
(** ** Classified errors *)

Module ErrorFacts.

Import GoErr.

Lemma is_joinError_inner (tc : bool) (t inner : GoError) (a : nat) (s : SentinelError) :
  is_ tc t inner = true -> is_ tc t (joinError a s inner) = true.
Proof.
  intros H. unfold joinError. simpl. rewrite H. apply orb_true_r.
Qed.

Lemma is_joinError_sentinel (a : nat) (s : SentinelError) (inner : GoError) :
  errors_Is (joinError a s inner) (ESentinel s) = true.
Proof.
  unfold errors_Is, joinError. simpl. rewrite String.eqb_refl. simpl.
  rewrite !orb_true_r. reflexivity.
Qed.

Lemma string_app_assoc (a b c : string) : a ++ (b ++ c) = (a ++ b) ++ c.
Proof.
  induction a as [|x a IH]; [reflexivity|].
  change (String x (a ++ (b ++ c)) = String x ((a ++ b) ++ c)). rewrite IH. reflexivity.
Qed.

Lemma string_app_nil_r (a : string) : a ++ "" = a.
Proof.
  induction a as [|x a IH]; [reflexivity|].
  change (String x (a ++ "") = String x a). rewrite IH. reflexivity.
Qed.

Lemma Contains_cons_left (pre s sub : string) :
  Contains s sub -> Contains (pre ++ s) sub.
Proof.
  intros (p & q & ->). exists (pre ++ p), q. rewrite <- string_app_assoc. reflexivity.
Qed.

(** C6 (amended): for any stack of [joinError] layers over a cause whose
    dynamic type is comparable, or is kin-openapi's [MultiError] (whose [Is]
    method accepts any [MultiError] target), [errors.Is] finds the cause and
    the sentinel of every layer, and the error's message contains each
    layer's sentinel text and the cause's message. *)
Theorem joinError_nested_Is (layers : list (nat * SentinelError)) (cause : GoError) :
  comparable cause = true \/ (exists l, cause = EMulti l) ->
  errors_Is (nest layers cause) cause = true /\
  Forall (fun '(_, s) => errors_Is (nest layers cause) (ESentinel s) = true) layers /\
  Forall (fun '(_, s) => Contains (Error (nest layers cause)) (sentinel_msg s)) layers /\
  Contains (Error (nest layers cause)) (Error cause).
Proof.
  intros Hc. induction layers as [|[a s] r (IH1 & IH2 & IH3 & IH4)]; simpl.
  - repeat split; try constructor.
    + unfold errors_Is. destruct Hc as [Hc|[l ->]]; [|reflexivity].
      rewrite Hc. destruct cause; simpl in Hc; try discriminate; simpl;
        rewrite ?Nat.eqb_refl, ?String.eqb_refl; try reflexivity.
      subst cmp. reflexivity.
    + exists "", "". simpl. rewrite string_app_nil_r. reflexivity.
  - repeat split.
    + unfold errors_Is in *. apply is_joinError_inner. exact IH1.
    + constructor; [apply is_joinError_sentinel|].
      eapply Forall_impl; [exact IH2|]. intros [a' s'] H. apply is_joinError_inner. exact H.
    + constructor.
      * exists "", (": " ++ Error (nest r cause)). reflexivity.
      * eapply Forall_impl; [exact IH3|]. intros [a' s'] H. simpl.
        apply (Contains_cons_left (sentinel_msg s ++ ": ")) in H.
        rewrite <- string_app_assoc in H. exact H.
    + simpl. apply (Contains_cons_left (sentinel_msg s ++ ": ")) in IH4.
      rewrite <- string_app_assoc in IH4. exact IH4.
Qed.

(** C6 at the test's errors: [errors.New] wrapped by [ErrNotPartOfSpec], then
    by [ErrRequestInvalid]. *)
Lemma joinError_nested_Is_witness :
  comparable (EString 1 "my test error") = true /\
  errors_Is (nest [(3, ErrRequestInvalid); (2, ErrNotPartOfSpec)] (EString 1 "my test error"))
    (EString 1 "my test error") = true.
Proof.
  split; [reflexivity|].
  apply (joinError_nested_Is [(3, ErrRequestInvalid); (2, ErrNotPartOfSpec)]).
  left. reflexivity.
Defined.

(** C6 fails as stated: a cause of a non-comparable error type without an
    [Is] method (here a slice-based error type of the caller's own) is not
    found by [errors.Is] through the [joinError] wrapping it, since [errors.Is]
    tests [==] only for comparable targets. *)
Lemma joinError_nested_Is_counterexample :
  errors_Is (nest [(2, ErrResponseInvalid)] (EPlain false 1 "value is required"))
    (EPlain false 1 "value is required") = false.
Proof. reflexivity. Qed.

End ErrorFacts.

(* ------------------------------------------------------------------ *)
(** ** MarkChecked *)

Module EndpointsFacts.

Import GoStr Endpoints.

Lemma MarkChecked_result (e : endpoints) (path method resCode : string) :
  snd (MarkChecked e path method resCode) = bool_decide (is_Some (responseMap e path method)).
Proof.
  unfold MarkChecked, responseMap.
  destruct (paths e !! path) as [p|]; [|reflexivity].
  destruct (methods_map p !! ToUpper method); reflexivity.
Qed.

(** C4 ([MarkChecked] adds to the coverage tree): marking a status code that
    was never inserted under a documented path and method inserts it, so the
    tree gains a coordinate. *)
Theorem MarkChecked_adds_coordinate :
  has_coordinate sample_table "/ping" "PUT" "404" = false /\
  has_coordinate (fst (MarkChecked sample_table "/ping" "PUT" "404")) "/ping" "PUT" "404" = true /\
  length (coordinates sample_table) = 1 /\
  length (coordinates (fst (MarkChecked sample_table "/ping" "PUT" "404"))) = 2.
Proof. vm_compute. repeat split. Qed.

(** C7 ([MarkChecked] reports its path and method, not its coordinate): it
    returns whether the path and upper-cased method are present, whatever the
    status code, and afterwards [IsChecked] of the coordinate is exactly that
    result, for coordinates never inserted as well. *)
Theorem MarkChecked_true_for_absent_code (e : endpoints) (path method resCode : string) :
  snd (MarkChecked e path method resCode) = bool_decide (is_Some (responseMap e path method)) /\
  IsChecked (fst (MarkChecked e path method resCode)) path method resCode
  = snd (MarkChecked e path method resCode) /\
  has_coordinate (fst (MarkChecked e path method resCode)) path method resCode
  = snd (MarkChecked e path method resCode).
Proof.
  split; [apply MarkChecked_result|].
  unfold MarkChecked, IsChecked, has_coordinate, responseMap.
  destruct (paths e !! path) as [p|] eqn:Hp; [|simpl; rewrite Hp; split; reflexivity].
  destruct (methods_map p !! ToUpper method) as [m|] eqn:Hm;
    [|simpl; rewrite Hp, Hm; split; reflexivity].
  simpl. rewrite lookup_insert_eq. simpl. rewrite lookup_insert_eq. simpl.
  rewrite lookup_insert_eq. split; reflexivity.
Qed.

Lemma ensure_path_chk (e : endpoints) (path : string) :
  checkInternalServerErrors (ensure_path e path) = checkInternalServerErrors e.
Proof. unfold ensure_path. destruct (paths e !! path); reflexivity. Qed.

Lemma update_methods_chk (e : endpoints) (path : string) f :
  checkInternalServerErrors (update_methods e path f) = checkInternalServerErrors e.
Proof. unfold update_methods. destruct (paths e !! path); reflexivity. Qed.

Lemma val_ensure_path (e : endpoints) (path p m c : string) :
  val (ensure_path e path) p m c = val e p m c.
Proof.
  unfold ensure_path, val. destruct (paths e !! path) as [pm|] eqn:Hp; [reflexivity|]. simpl.
  destruct (String.eqb_spec p path) as [->|Hne].
  - rewrite lookup_insert_eq, Hp. simpl. rewrite lookup_empty. reflexivity.
  - rewrite lookup_insert_ne by congruence. reflexivity.
Qed.

Lemma ensure_path_present (e : endpoints) (path : string) :
  is_Some (paths (ensure_path e path) !! path).
Proof.
  unfold ensure_path. destruct (paths e !! path) eqn:Hp; [eexists; exact Hp|].
  simpl. rewrite lookup_insert_eq. eexists; reflexivity.
Qed.

Lemma val_ensure_method (e : endpoints) (path method p m c : string) :
  val (ensure_method e path method) p m c = val e p m c.
Proof.
  unfold ensure_method, update_methods, val.
  destruct (paths e !! path) as [pm|] eqn:Hp; [|reflexivity]. simpl.
  destruct (String.eqb_spec p path) as [->|Hne].
  - rewrite lookup_insert_eq, Hp. simpl.
    destruct (methods_map pm !! method) as [r|] eqn:Hm; [reflexivity|].
    destruct (String.eqb_spec m method) as [->|Hne'].
    + rewrite lookup_insert_eq, Hm. simpl. rewrite lookup_empty. reflexivity.
    + rewrite lookup_insert_ne by congruence. reflexivity.
  - rewrite lookup_insert_ne by congruence. reflexivity.
Qed.

Lemma ensure_method_has (e : endpoints) (path method : string) :
  is_Some (paths e !! path) -> has_method (ensure_method e path method) path method.
Proof.
  intros [pm Hp]. unfold ensure_method, update_methods, has_method. rewrite Hp. simpl.
  rewrite lookup_insert_eq.
  destruct (methods_map pm !! method) as [r|] eqn:Hm.
  - eexists. exists r. split; [reflexivity|exact Hm].
  - eexists. eexists. split; [reflexivity|]. apply lookup_insert_eq.
Qed.

Lemma val_set_code (e : endpoints) (path method code : string) (b : bool) (p m c : string) :
  has_method e path method ->
  val (set_code e path method code b) p m c
  = if String.eqb p path && String.eqb m method && String.eqb c code then Some b
    else val e p m c.
Proof.
  intros (pm & r & Hp & Hm). unfold set_code, update_methods, val. rewrite Hp, Hm. simpl.
  destruct (String.eqb_spec p path) as [->|Hne]; simpl.
  - rewrite lookup_insert_eq, Hp. simpl.
    destruct (String.eqb_spec m method) as [->|Hne']; simpl.
    + rewrite lookup_insert_eq, Hm. simpl.
      destruct (String.eqb_spec c code) as [->|Hne'']; simpl.
      * apply lookup_insert_eq.
      * rewrite lookup_insert_ne by congruence. reflexivity.
    + rewrite lookup_insert_ne by congruence. reflexivity.
  - rewrite lookup_insert_ne by congruence. reflexivity.
Qed.

Lemma set_code_has (e : endpoints) (path method code : string) (b : bool) (p m : string) :
  has_method e p m -> has_method (set_code e path method code b) p m.
Proof.
  intros (pm & r & Hp & Hm). unfold set_code, update_methods.
  destruct (paths e !! path) as [pm'|] eqn:Hp'; [|exists pm, r; auto]. simpl.
  unfold has_method. simpl.
  destruct (String.eqb_spec p path) as [->|Hne].
  - rewrite lookup_insert_eq. rewrite Hp in Hp'. injection Hp' as <-.
    destruct (methods_map pm !! method) as [r'|] eqn:Hm'.
    + destruct (String.eqb_spec m method) as [->|Hne'].
      * eexists. eexists. split; [reflexivity|]. apply lookup_insert_eq.
      * eexists. exists r. split; [reflexivity|]. simpl.
        rewrite lookup_insert_ne by congruence. exact Hm.
    + eexists. exists r. split; [reflexivity|exact Hm].
  - exists pm, r. rewrite lookup_insert_ne by congruence. auto.
Qed.

Lemma set_code_chk (e : endpoints) (path method code : string) (b : bool) :
  checkInternalServerErrors (set_code e path method code b) = checkInternalServerErrors e.
Proof. apply update_methods_chk. Qed.

Lemma ensure_method_chk (e : endpoints) (path method : string) :
  checkInternalServerErrors (ensure_method e path method) = checkInternalServerErrors e.
Proof. apply update_methods_chk. Qed.

Lemma ensure_method_keeps_path (e : endpoints) (path method p : string) :
  is_Some (paths e !! p) -> is_Some (paths (ensure_method e path method) !! p).
Proof.
  intros Hs. unfold ensure_method, update_methods.
  destruct (paths e !! path) eqn:Hp; [|exact Hs]. simpl.
  destruct (String.eqb_spec p path) as [->|Hne].
  - rewrite lookup_insert_eq. eexists; reflexivity.
  - rewrite lookup_insert_ne by congruence. exact Hs.
Qed.

Lemma set_code_keeps_path (e : endpoints) (path method code : string) (b : bool) (p : string) :
  is_Some (paths e !! p) -> is_Some (paths (set_code e path method code b) !! p).
Proof.
  intros Hs. unfold set_code, update_methods.
  destruct (paths e !! path) eqn:Hp; [|exact Hs]. simpl.
  destruct (String.eqb_spec p path) as [->|Hne].
  - rewrite lookup_insert_eq. eexists; reflexivity.
  - rewrite lookup_insert_ne by congruence. exact Hs.
Qed.

(** The loop over the response codes of one operation. *)
Lemma val_codes (codes : list string) (e1 : endpoints) (path method p m c : string) :
  has_method e1 path method ->
  val (fold_left (fun e2 responseCode =>
         if negb (checkInternalServerErrors e2) && String.eqb responseCode "500" then e2
         else set_code e2 path method responseCode false) codes e1) p m c
  = if String.eqb p path && String.eqb m method && existsb (String.eqb c) codes &&
       (checkInternalServerErrors e1 || negb (String.eqb c "500"))
    then Some false else val e1 p m c.
Proof.
  revert e1. induction codes as [|x codes IH]; intros e1 Hh; simpl.
  - destruct (String.eqb p path), (String.eqb m method); reflexivity.
  - destruct (negb (checkInternalServerErrors e1) && String.eqb x "500") eqn:Hx.
    + rewrite (IH e1 Hh).
      apply andb_true_iff in Hx as [Hc Hx]. apply negb_true_iff in Hc.
      apply String.eqb_eq in Hx as ->. rewrite Hc. simpl.
      destruct (String.eqb c "500") eqn:E5; simpl; rewrite ?andb_false_r, ?andb_true_r;
        reflexivity.
    + rewrite (IH _ (set_code_has _ _ _ _ _ _ _ Hh)), set_code_chk, (val_set_code _ _ _ _ _ _ _ _ Hh).
      destruct (String.eqb_spec p path) as [->|Hp], (String.eqb_spec m method) as [->|Hm];
        simpl; try reflexivity.
      destruct (String.eqb_spec c x) as [->|Hcx]; simpl.
      * destruct (negb (String.eqb x "500")) eqn:H5; rewrite ?orb_true_r;
          [destruct (existsb _ codes); reflexivity|].
        rewrite !orb_false_r.
        destruct (checkInternalServerErrors e1) eqn:Ec; [destruct (existsb _ codes); reflexivity|].
        apply negb_false_iff in H5. rewrite H5 in Hx. discriminate.
      * reflexivity.
Qed.

Lemma codes_keep (codes : list string) (e1 : endpoints) (path method p : string) :
  let e2 := fold_left (fun e2 responseCode =>
         if negb (checkInternalServerErrors e2) && String.eqb responseCode "500" then e2
         else set_code e2 path method responseCode false) codes e1 in
  checkInternalServerErrors e2 = checkInternalServerErrors e1 /\
  (is_Some (paths e1 !! p) -> is_Some (paths e2 !! p)).
Proof.
  cbv zeta. revert e1. induction codes as [|x codes IH]; intros e1; simpl; [auto|].
  destruct (negb (checkInternalServerErrors e1) && String.eqb x "500"); [apply IH|].
  destruct (IH (set_code e1 path method x false)) as [H1 H2]. rewrite set_code_chk in H1.
  split; [exact H1|]. intros Hs. apply H2. apply set_code_keeps_path. exact Hs.
Qed.

Lemma val_loadPath (e : endpoints) (path : string) (i : PathItem3) (p m c : string) :
  val (loadPath e path i) p m c
  = if String.eqb p path && doc_item (checkInternalServerErrors e) i m c then Some false
    else val e p m c.
Proof.
  unfold loadPath, doc_item.
  rewrite <- (val_ensure_path e path p m c), <- (ensure_path_chk e path).
  pose proof (ensure_path_present e path) as Hs.
  revert Hs. generalize (ensure_path e path) as e0. induction (Operations i) as [|[m0 op] ops IH]; intros e0 Hs0; simpl.
  - destruct (String.eqb p path); reflexivity.
  - set (e1 := ensure_method e0 path (ToUpper m0)).
    assert (Hh : has_method e1 path (ToUpper m0)) by (apply ensure_method_has; exact Hs0).
    assert (Hs1 : is_Some (paths e1 !! path)) by (apply ensure_method_keeps_path; exact Hs0).
    assert (Hv1 : forall p m c, val e1 p m c = val e0 p m c) by (intros; apply val_ensure_method).
    assert (Hc1 : checkInternalServerErrors e1 = checkInternalServerErrors e0)
      by apply ensure_method_chk.
    destruct (Responses3 op) as [codes|].
    + destruct (codes_keep codes e1 path (ToUpper m0) path) as [Hc2 Hs2].
      rewrite IH by (apply Hs2; exact Hs1). rewrite Hc2, Hc1.
      rewrite (val_codes codes e1 path (ToUpper m0) p m c Hh), Hv1, Hc1.
      destruct (String.eqb p path); simpl; [|reflexivity].
      destruct (String.eqb m (ToUpper m0)), (existsb (String.eqb c) codes),
        (checkInternalServerErrors e0 || negb (String.eqb c "500")); simpl; try reflexivity;
        match goal with |- context [existsb ?f ops] => destruct (existsb f ops) end;
        reflexivity.
    + rewrite IH by exact Hs1. rewrite Hc1, Hv1.
      destruct (String.eqb p path); simpl; [|reflexivity].
      rewrite andb_false_r. reflexivity.
Qed.

Lemma val_loadPaths (e : endpoints) (l : list (string * PathItem3)) (p m c : string) :
  checkInternalServerErrors (fold_left (fun e0 '(path, i) => loadPath e0 path i) l e)
  = checkInternalServerErrors e /\
  val (fold_left (fun e0 '(path, i) => loadPath e0 path i) l e) p m c
  = if existsb (fun '((path, i) : string * PathItem3) =>
                  String.eqb p path && doc_item (checkInternalServerErrors e) i m c) l
    then Some false else val e p m c.
Proof.
  revert e. induction l as [|[path i] l IH]; intros e; simpl; [auto|].
  assert (Hc : checkInternalServerErrors (loadPath e path i) = checkInternalServerErrors e).
  { unfold loadPath. rewrite <- (ensure_path_chk e path).
    generalize (ensure_path e path) as e0. induction (Operations i) as [|[m0 op] ops IHo];
      intros e0; simpl; [reflexivity|].
    rewrite IHo. destruct (Responses3 op) as [codes|]; [|apply ensure_method_chk].
    rewrite (proj1 (codes_keep codes _ path (ToUpper m0) path)). apply ensure_method_chk. }
  destruct (IH (loadPath e path i)) as [H1 H2]. rewrite H1, Hc. split; [reflexivity|].
  rewrite H2, Hc, val_loadPath. clear.
  destruct (String.eqb p path && doc_item _ i m c); simpl; [|reflexivity].
  match goal with |- context [existsb ?f l] => destruct (existsb f l) end; reflexivity.
Qed.

Lemma val_newEndpoints (model : Document) (chk : bool) (p m c : string) :
  val (newEndpoints model chk) p m c
  = if existsb (fun '((path, i) : string * PathItem3) =>
                  String.eqb p path && doc_item chk i m c) (PathItems model)
    then Some false else None.
Proof.
  unfold newEndpoints, loadPaths. rewrite (proj2 (val_loadPaths _ _ p m c)). simpl.
  unfold val. simpl. rewrite lookup_empty.
  destruct (existsb _ _); reflexivity.
Qed.

Lemma doc_item_spec (chk : bool) (i : PathItem3) (m c : string) :
  doc_item chk i m c = true <->
  exists m0 op codes, In (m0, op) (Operations i) /\ Responses3 op = Some codes /\
    In c codes /\ m = ToUpper m0 /\ (chk || negb (String.eqb c "500")) = true.
Proof.
  unfold doc_item. rewrite existsb_exists. split.
  - intros ([m0 op] & Hin & H). apply andb_true_iff in H as [Hm H].
    apply String.eqb_eq in Hm.
    destruct (Responses3 op) as [codes|] eqn:Hr; [|discriminate].
    apply andb_true_iff in H as [Hc Hp]. apply existsb_exists in Hc as (c' & Hc' & Hcc).
    apply String.eqb_eq in Hcc. subst c'.
    exists m0, op, codes. repeat split; assumption.
  - intros (m0 & op & codes & Hin & Hr & Hc & Hm & Hp). exists (m0, op). split; [exact Hin|].
    rewrite Hm, String.eqb_refl, Hr. simpl. rewrite Hp, andb_true_r.
    apply existsb_exists. exists c. rewrite String.eqb_refl. auto.
Qed.

Lemma documented3_spec (model : Document) (chk : bool) (p m c : string) :
  existsb (fun '((path, i) : string * PathItem3) => String.eqb p path && doc_item chk i m c)
    (PathItems model) = true <-> documented3 model chk p m c.
Proof.
  rewrite existsb_exists. unfold documented3. split.
  - intros ([path i] & Hin & H). apply andb_true_iff in H as [Hp H].
    apply String.eqb_eq in Hp. subst path.
    apply doc_item_spec in H as (m0 & op & codes & H1 & H2 & H3 & H4 & H5).
    exists i, m0, op, codes. repeat split; assumption.
  - intros (i & m0 & op & codes & H1 & H2 & H3 & H4 & H5 & H6).
    exists (p, i). split; [exact H1|]. rewrite String.eqb_refl. simpl.
    apply doc_item_spec. exists m0, op, codes. auto.
Qed.

Lemma IsChecked_val (e : endpoints) (p m c : string) :
  IsChecked e p m c = default false (val e p (ToUpper m) c).
Proof.
  unfold IsChecked, responseMap, val.
  destruct (paths e !! p) as [pm|]; [|reflexivity].
  destruct (methods_map pm !! ToUpper m); reflexivity.
Qed.

Lemma has_coordinate_val (e : endpoints) (p m c : string) :
  has_coordinate e p m c = bool_decide (is_Some (val e p (ToUpper m) c)).
Proof.
  unfold has_coordinate, responseMap, val.
  destruct (paths e !! p) as [pm|]; [|reflexivity].
  destruct (methods_map pm !! ToUpper m); [reflexivity|].
  rewrite bool_decide_eq_false_2; [reflexivity|]. intros [x Hx]. discriminate.
Qed.

Lemma Unchecked_val (e : endpoints) (ep : Endpoint) :
  In ep (Unchecked e) <-> val e (Path ep) (Method ep) (ResponseCode ep) = Some false.
Proof.
  unfold Unchecked, val. rewrite in_flat_map. split.
  - intros ([path pm] & Hin & H). apply list_elem_of_In, elem_of_map_to_list in Hin.
    apply in_flat_map in H as ([method r] & Hm & H).
    apply list_elem_of_In, elem_of_map_to_list in Hm.
    apply in_flat_map in H as ([code b] & Hc & H).
    apply list_elem_of_In, elem_of_map_to_list in Hc.
    destruct b; [destruct H|]. destruct H as [<-|[]]. simpl.
    rewrite Hin, Hm. exact Hc.
  - destruct ep as [path method code]. simpl.
    destruct (paths e !! path) as [pm|] eqn:Hp; [|discriminate].
    destruct (methods_map pm !! method) as [r|] eqn:Hm; [|discriminate].
    intros Hc. exists (path, pm). split; [apply list_elem_of_In, elem_of_map_to_list; exact Hp|].
    apply in_flat_map. exists (method, r).
    split; [apply list_elem_of_In, elem_of_map_to_list; exact Hm|].
    apply in_flat_map. exists (code, false).
    split; [apply list_elem_of_In, elem_of_map_to_list; exact Hc|]. left. reflexivity.
Qed.

Lemma MarkChecked_val (e : endpoints) (p m c p' m' c' : string) :
  val (fst (MarkChecked e p m c)) p' m' c'
  = if String.eqb p' p && String.eqb m' (ToUpper m) && String.eqb c' c &&
       snd (MarkChecked e p m c)
    then Some true else val e p' m' c'.
Proof.
  unfold MarkChecked, val.
  destruct (paths e !! p) as [pm|] eqn:Hp; simpl; [|rewrite !andb_false_r; reflexivity].
  destruct (methods_map pm !! ToUpper m) as [r|] eqn:Hm; simpl;
    [|rewrite !andb_false_r; reflexivity].
  rewrite andb_true_r.
  destruct (String.eqb_spec p' p) as [->|Hne]; simpl.
  - rewrite lookup_insert_eq, Hp. simpl.
    destruct (String.eqb_spec m' (ToUpper m)) as [->|Hne']; simpl.
    + rewrite lookup_insert_eq, Hm. simpl.
      destruct (String.eqb_spec c' c) as [->|Hne'']; simpl.
      * apply lookup_insert_eq.
      * rewrite lookup_insert_ne by congruence. reflexivity.
    + rewrite lookup_insert_ne by congruence. reflexivity.
  - rewrite lookup_insert_ne by congruence. reflexivity.
Qed.



(** A new coverage tree holds exactly the coordinates its model documents
    (an operation's method upper-cased; status 500 only when internal server
    errors are checked), all unchecked: [IsChecked] is false everywhere, and
    [Unchecked] lists every documented coordinate. *)
Theorem newEndpoints_spec (model : Document) (chk : bool) (p m c : string) (ep : Endpoint) :
  IsChecked (newEndpoints model chk) p m c = false /\
  (has_coordinate (newEndpoints model chk) p m c = true <-> documented3 model chk p (ToUpper m) c) /\
  (In ep (Unchecked (newEndpoints model chk)) <->
   documented3 model chk (Path ep) (Method ep) (ResponseCode ep)).
Proof.
  rewrite IsChecked_val, has_coordinate_val, Unchecked_val, !val_newEndpoints.
  rewrite <- !documented3_spec.
  split; [destruct (existsb _ _); reflexivity|]. split.
  - destruct (existsb _ _); simpl.
    + split; [reflexivity|]. intros _.
      first [reflexivity | apply bool_decide_eq_true_2; eexists; reflexivity].
    + split; [|discriminate]. intros H.
      first [discriminate | apply bool_decide_eq_true_1 in H as [x Hx]; discriminate].
  - destruct (existsb _ _); split; congruence.
Qed.

(** [MarkChecked] changes one coordinate at most: afterwards [IsChecked] of
    the marked coordinate (path, upper-cased method, code) is what
    [MarkChecked] returned, [IsChecked] of every other coordinate is
    unchanged, and [Unchecked] loses exactly the marked coordinate. *)
Theorem MarkChecked_effect (e : endpoints) (p m c p' m' c' : string) (ep : Endpoint) :
  IsChecked (fst (MarkChecked e p m c)) p' m' c'
  = (if String.eqb p' p && String.eqb (ToUpper m') (ToUpper m) && String.eqb c' c
     then snd (MarkChecked e p m c) || IsChecked e p' m' c'
     else IsChecked e p' m' c') /\
  (In ep (Unchecked (fst (MarkChecked e p m c))) <->
   In ep (Unchecked e) /\ ~ (Path ep = p /\ Method ep = ToUpper m /\ ResponseCode ep = c)).
Proof.
  split.
  - rewrite !IsChecked_val, MarkChecked_val.
    destruct (String.eqb p' p && String.eqb (ToUpper m') (ToUpper m) && String.eqb c' c);
      [|reflexivity].
    destruct (snd (MarkChecked e p m c)); reflexivity.
  - rewrite !Unchecked_val, MarkChecked_val.
    destruct (String.eqb_spec (Path ep) p) as [Hp|Hp],
             (String.eqb_spec (Method ep) (ToUpper m)) as [Hm|Hm],
             (String.eqb_spec (ResponseCode ep) c) as [Hc|Hc]; simpl;
      try (split; [intros H; split; [exact H | intros (? & ? & ?); contradiction]
                  | intros [H _]; exact H]).
    destruct (snd (MarkChecked e p m c)) eqn:Hs.
    + split; [discriminate|]. intros [_ H]. exfalso. apply H. auto.
    + split.
      * intros H. split; [exact H|]. intros _.
        rewrite MarkChecked_result in Hs. apply bool_decide_eq_false_1 in Hs.
        unfold val, responseMap in H, Hs. rewrite <- Hp, <- Hm in Hs.
        destruct (paths e !! Path ep) as [pm|]; [|discriminate].
        destruct (methods_map pm !! Method ep); [|discriminate]. apply Hs. eexists; reflexivity.
      * intros [_ H]. exfalso. apply H. auto.
Qed.

(** Marking a coordinate twice is marking it once. *)
Theorem MarkChecked_idempotent (e : endpoints) (p m c : string) :
  MarkChecked (fst (MarkChecked e p m c)) p m c = MarkChecked e p m c.
Proof.
  unfold MarkChecked at 2.
  destruct (paths e !! p) as [pm|] eqn:Hp; simpl; [|unfold MarkChecked; rewrite Hp; reflexivity].
  destruct (methods_map pm !! ToUpper m) as [r|] eqn:Hm; simpl;
    [|unfold MarkChecked; rewrite Hp, Hm; reflexivity].
  unfold MarkChecked. simpl. rewrite lookup_insert_eq. simpl. rewrite lookup_insert_eq. simpl.
  rewrite Hp, Hm, !insert_insert_eq. reflexivity.
Qed.



Lemma NoDup_flat_map_keyed {A B K : Type} (key : B -> K) (kf : A -> K) (f : A -> list B)
  (l : list A) :
  NoDup (kf <$> l) -> (forall a, In a l -> NoDup (f a)) ->
  (forall a b, In a l -> In b (f a) -> key b = kf a) ->
  NoDup (flat_map f l).
Proof.
  induction l as [|a l IH]; intros Hk Hf Hkey; simpl; [constructor|].
  rewrite fmap_cons in Hk. apply NoDup_cons in Hk as [Hnot Hk].
  apply NoDup_app. split; [apply Hf; left; reflexivity|]. split.
  - intros x Hx1 Hx2. apply list_elem_of_In in Hx1, Hx2.
    apply in_flat_map in Hx2 as (a' & Ha' & Hx2).
    apply Hnot. apply list_elem_of_fmap. exists a'. split; [|apply list_elem_of_In; exact Ha'].
    rewrite <- (Hkey a x (or_introl eq_refl) Hx1), <- (Hkey a' x (or_intror Ha') Hx2).
    reflexivity.
  - apply IH; [exact Hk| |].
    + intros a' Ha'. apply Hf. right. exact Ha'.
    + intros a' b Ha' Hb. apply Hkey; [right; exact Ha'|exact Hb].
Qed.

(** [Unchecked] never lists a coordinate twice. *)
Theorem Unchecked_NoDup (e : endpoints) : NoDup (Unchecked e).
Proof.
  unfold Unchecked.
  apply (NoDup_flat_map_keyed Path fst); [apply NoDup_fst_map_to_list| |].
  - intros [path pm] _.
    apply (NoDup_flat_map_keyed Method fst); [apply NoDup_fst_map_to_list| |].
    + intros [method r] _.
      apply (NoDup_flat_map_keyed ResponseCode fst); [apply NoDup_fst_map_to_list| |].
      * intros [code b] _. destruct b; [constructor|].
        constructor; [intros H; inversion H|constructor].
      * intros [code b] x _ Hx. destruct b; [destruct Hx|].
        destruct Hx as [<-|[]]. reflexivity.
    + intros [method r] x _ Hx. apply in_flat_map in Hx as ([code b] & _ & Hx).
      destruct b; [destruct Hx|]. destruct Hx as [<-|[]]. reflexivity.
  - intros [path pm] x _ Hx. apply in_flat_map in Hx as ([method r] & _ & Hx).
    apply in_flat_map in Hx as ([code b] & _ & Hx).
    destruct b; [destruct Hx|]. destruct Hx as [<-|[]]. reflexivity.
Qed.

End EndpointsFacts.

(* ------------------------------------------------------------------ *)
(** ** String helpers *)

Module GoStrFacts.

Import GoStr.

Lemma trim_left_cons (c : ascii) (r : string) :
  trim_left_slash (String c r) = if Ascii.eqb c "/" then trim_left_slash r else String c r.
Proof.
  destruct c as [b0 b1 b2 b3 b4 b5 b6 b7].
  destruct b0, b1, b2, b3, b4, b5, b6, b7; reflexivity.
Qed.

Lemma trim_left_idem (s : string) : trim_left_slash (trim_left_slash s) = trim_left_slash s.
Proof.
  induction s as [|c r IH]; [reflexivity|]. rewrite trim_left_cons.
  destruct (Ascii.eqb c "/") eqn:Hc; [exact IH|]. rewrite trim_left_cons, Hc. reflexivity.
Qed.

Lemma trim_left_starts (s : string) : starts_slash (trim_left_slash s) = false.
Proof.
  induction s as [|c r IH]; [reflexivity|]. rewrite trim_left_cons.
  destruct (Ascii.eqb c "/") eqn:Hc; [exact IH|].
  apply Ascii.eqb_neq in Hc. destruct c as [b0 b1 b2 b3 b4 b5 b6 b7].
  destruct b0, b1, b2, b3, b4, b5, b6, b7; try reflexivity. exfalso. apply Hc. reflexivity.
Qed.

Lemma list_ascii_app (s t : string) :
  list_ascii_of_string (s ++ t) = (list_ascii_of_string s ++ list_ascii_of_string t)%list.
Proof. induction s as [|c r IH]; simpl; [reflexivity|]. rewrite IH. reflexivity. Qed.

Lemma string_length_app (s t : string) :
  String.length (s ++ t) = String.length s + String.length t.
Proof. induction s as [|c r IH]; simpl; [reflexivity|]. rewrite IH. reflexivity. Qed.

Lemma rev_string_snoc (s : string) (c : ascii) :
  rev_string (s ++ String c "") = String c (rev_string s).
Proof.
  unfold rev_string. rewrite list_ascii_app. simpl. rewrite rev_app_distr. reflexivity.
Qed.

Lemma trim_left_all (s : string) :
  forallb (Ascii.eqb "/") (list_ascii_of_string s) = true -> trim_left_slash s = "".
Proof.
  induction s as [|c r IH]; cbn [list_ascii_of_string forallb]; [reflexivity|]. intros H.
  apply andb_true_iff in H as [Hc Hr]. apply Ascii.eqb_eq in Hc. subst c. apply IH. exact Hr.
Qed.

Lemma trim_left_snoc_slash (s : string) :
  trim_left_slash (s ++ "/") =
  if forallb (Ascii.eqb "/") (list_ascii_of_string s) then "" else trim_left_slash s ++ "/".
Proof.
  induction s as [|c r IH]; [reflexivity|].
  change (String c r ++ "/") with (String c (r ++ "/")).
  rewrite !trim_left_cons. cbn [list_ascii_of_string forallb].
  rewrite (Ascii.eqb_sym "/" c).
  destruct (Ascii.eqb c "/"); [exact IH|]. reflexivity.
Qed.

End GoStrFacts.

(* ------------------------------------------------------------------ *)
(** ** Options and path patterns *)

Module CopperFacts.

Import GoStr GoStrFacts Copper.

Lemma fold_options (os : list OptionCall) (c : config) :
  fold_left (fun c opt => opt c) (map option_of os) c =
  {| basePath := fold_left (fun b o => match o with
                                       | CWithBasePath p => "/" ++ Trim_slash p
                                       | _ => b end) os (basePath c);
     checkInternalServerErrors := checkInternalServerErrors c ||
       existsb (fun o => match o with CWithInternalServerErrors => true | _ => false end) os;
     checkRequest := checkRequest c ||
       existsb (fun o => match o with CWithRequestValidation => true | _ => false end) os;
     disableFullCoverage := disableFullCoverage c ||
       existsb (fun o => match o with CWithoutFullCoverage => true | _ => false end) os;
     ignoreUnsupportedBodyFormats := ignoreUnsupportedBodyFormats c ||
       existsb (fun o => match o with CWithIgnoredUnsupportedBodyFormats => true
                                 | _ => false end) os |}.
Proof.
  revert c. induction os as [|o os IH]; intros c; simpl.
  - rewrite !orb_false_r. destruct c; reflexivity.
  - rewrite IH. destruct o; simpl; rewrite ?orb_true_r, ?orb_false_l, ?orb_assoc; reflexivity.
Qed.

(** [getConfig] of a list of option constructors: each boolean setting is on
    exactly when its option occurs in the list, whatever the order, and the
    base path is set by the last [WithBasePath], the empty string when
    there is none. *)
Theorem getConfig_options (os : list OptionCall) :
  getConfig (map option_of os) =
  {| basePath := fold_left (fun b o => match o with
                                       | CWithBasePath p => "/" ++ Trim_slash p
                                       | _ => b end) os "";
     checkInternalServerErrors :=
       existsb (fun o => match o with CWithInternalServerErrors => true | _ => false end) os;
     checkRequest :=
       existsb (fun o => match o with CWithRequestValidation => true | _ => false end) os;
     disableFullCoverage :=
       existsb (fun o => match o with CWithoutFullCoverage => true | _ => false end) os;
     ignoreUnsupportedBodyFormats :=
       existsb (fun o => match o with CWithIgnoredUnsupportedBodyFormats => true
                                 | _ => false end) os |}.
Proof. unfold getConfig. rewrite fold_options. reflexivity. Qed.

(** [WithBasePath] ignores the slashes around its argument:
    [WithBasePath("/" + p)] and [WithBasePath(p + "/")] are [WithBasePath(p)]. *)
Theorem WithBasePath_surrounding_slashes (p : string) :
  WithBasePath ("/" ++ p) = WithBasePath p /\ WithBasePath (p ++ "/") = WithBasePath p.
Proof.
  split; [reflexivity|].
  assert (H : Trim_slash (p ++ "/") = Trim_slash p).
  { unfold Trim_slash. rewrite trim_left_snoc_slash.
    destruct (forallb (Ascii.eqb "/") (list_ascii_of_string p)) eqn:Hp.
    - rewrite (trim_left_all p Hp). reflexivity.
    - rewrite rev_string_snoc. rewrite trim_left_cons. reflexivity. }
  unfold WithBasePath. rewrite H. reflexivity.
Qed.

Lemma split_close_app (n rest : string) :
  forallb (fun c => negb (Ascii.eqb c "}")) (list_ascii_of_string n) = true ->
  split_close (n ++ String "}" rest) = Some (n, rest).
Proof.
  induction n as [|c n IH]; intros H; [reflexivity|].
  simpl in H. apply andb_true_iff in H as [Hc Hn]. simpl.
  apply negb_true_iff in Hc. rewrite Hc, IH by exact Hn. reflexivity.
Qed.

Lemma split_close_length (r n rest : string) :
  split_close r = Some (n, rest) -> String.length rest < S (String.length r).
Proof.
  revert n. induction r as [|c r IH]; intros n H; simpl in H; [discriminate|].
  destruct (Ascii.eqb c "}"); [injection H as _ <-; simpl; lia|].
  destruct (split_close r) as [[n' rest']|] eqn:E; [|discriminate].
  injection H as _ <-. specialize (IH n' eq_refl). simpl. lia.
Qed.

Lemma replace_params_fuel (n m : nat) (s : string) :
  String.length s <= n -> String.length s <= m -> replace_params n s = replace_params m s.
Proof.
  revert m s. induction n as [|n IH]; intros m s Hn Hm.
  - destruct s; [|simpl in Hn; lia]. destruct m; reflexivity.
  - destruct m as [|m]; [destruct s; [reflexivity|simpl in Hm; lia]|].
    destruct s as [|c r]; [reflexivity|]. simpl in Hn, Hm. simpl.
    destruct (Ascii.eqb c "{").
    + destruct (split_close r) as [[name rest]|] eqn:E; [|reflexivity].
      apply split_close_length in E. rewrite (IH m rest) by lia. reflexivity.
    + f_equal. apply IH; lia.
Qed.

Lemma replace_params_prefix (a s : string) (fuel : nat) :
  forallb (fun c => negb (Ascii.eqb c "{")) (list_ascii_of_string a) = true ->
  String.length a <= fuel ->
  replace_params fuel (a ++ s) = a ++ replace_params (fuel - String.length a) s.
Proof.
  revert fuel. induction a as [|c a IH]; intros fuel H Hf.
  - simpl. rewrite Nat.sub_0_r. reflexivity.
  - simpl in H, Hf. apply andb_true_iff in H as [Hc Ha]. apply negb_true_iff in Hc.
    destruct fuel as [|fuel]; [lia|]. simpl. rewrite Hc, IH by (assumption || lia).
    reflexivity.
Qed.

Lemma replace_params_empty (fuel : nat) : replace_params fuel "" = "".
Proof. destruct fuel; reflexivity. Qed.

(** A path without an opening brace is used as it is in the path pattern. *)
Theorem ReplaceParams_no_placeholder (a : string) :
  forallb (fun c => negb (Ascii.eqb c "{")) (list_ascii_of_string a) = true ->
  ReplaceParams a = a.
Proof.
  intros H. unfold ReplaceParams.
  pose proof (replace_params_prefix a "" (String.length a) H (le_n _)) as E.
  rewrite replace_params_empty, !ErrorFacts.string_app_nil_r in E. exact E.
Qed.

(** Each placeholder [{name}] of a path becomes the named group
    [(?P<name>[^/]+)]: a prefix without an opening brace is kept, and the
    rest of the path after the closing brace is translated the same way. *)
Theorem ReplaceParams_placeholder (a n b : string) :
  forallb (fun c => negb (Ascii.eqb c "{")) (list_ascii_of_string a) = true ->
  forallb (fun c => negb (Ascii.eqb c "}")) (list_ascii_of_string n) = true ->
  ReplaceParams (a ++ "{" ++ n ++ "}" ++ b) = a ++ "(?P<" ++ n ++ ">[^/]+)" ++ ReplaceParams b.
Proof.
  intros Ha Hn. unfold ReplaceParams.
  assert (Hl : String.length (a ++ "{" ++ n ++ "}" ++ b)
               = String.length a + S (String.length n + S (String.length b))).
  { rewrite !string_length_app. reflexivity. }
  rewrite replace_params_prefix by (assumption || lia). f_equal.
  rewrite Hl. replace (String.length a + S (String.length n + S (String.length b)) -
                       String.length a) with (S (String.length n + S (String.length b))) by lia.
  change ("{" ++ n ++ "}" ++ b) with (String "{" (n ++ String "}" b)).
  cbn [replace_params Ascii.eqb]. simpl Ascii.eqb. rewrite split_close_app by exact Hn.
  rewrite (replace_params_fuel (String.length n + S (String.length b)) (String.length b) b)
    by lia.
  reflexivity.
Qed.

(** [ReplaceParams_no_placeholder] at a literal path. *)
Lemma ReplaceParams_no_placeholder_witness : ReplaceParams "/ping/status" = "/ping/status".
Proof. apply ReplaceParams_no_placeholder. reflexivity. Defined.

(** [ReplaceParams_placeholder] at a path with two placeholders. *)
Lemma ReplaceParams_placeholder_witness :
  ReplaceParams ("/users/" ++ "{" ++ "id" ++ "}" ++ "/posts/{post}")
  = "/users/" ++ "(?P<" ++ "id" ++ ">[^/]+)" ++ ReplaceParams "/posts/{post}".
Proof. apply ReplaceParams_placeholder; reflexivity. Defined.

End CopperFacts.

(* ------------------------------------------------------------------ *)
(** ** [uri_creator.go] *)

Module UriCreatorFacts.

Import GoStr GoStrFacts UriCreatorM.

(** [Relative] puts exactly one slash between the base path and the path:
    the path's leading slashes are dropped, so [Relative] of the path and of
    the path without its leading slashes agree, and so do [Absolute]. *)
Theorem Relative_leading_slashes (d : UriCreator) (p : string) :
  exists q, Relative d p = "/" ++ BasePath d ++ "/" ++ q /\ starts_slash q = false /\
    Relative d (trim_left_slash p) = Relative d p /\
    Absolute d (trim_left_slash p) = Absolute d p.
Proof.
  exists (trim_left_slash p). unfold Absolute, Relative. rewrite trim_left_idem.
  split; [reflexivity|]. split; [apply trim_left_starts|]. split; reflexivity.
Qed.

End UriCreatorFacts.
